(** * Surface-code parity-check matrix generator

    A shallow embedding of [codes/surface_code_generator.py]: the function
    [generate_surface_code_pcm], the top-level loop over the seven code
    distances, and the calls the script makes into its two libraries
    (qecsim's [RotatedPlanarCode] and numpy's [savetxt]).

    Python integers are [Z]; a two-dimensional integer array is the list of
    its rows; Python [str] is [string]; exceptions are an error result; the
    file system and the order of the library calls are explicit state. *)

From Stdlib Require Import ZArith DecimalString DecimalZ DecimalPos Ascii String.
From stdpp Require Import gmap strings list fin_maps.

Local Open Scope string_scope.
Local Open Scope Z_scope.
Local Open Scope list_scope.

(** ** Python exceptions and results *)

Inductive exn : Type :=
  | ValueError
  | TypeError
  | IndexError
  | FileNotFoundError
  | IsADirectoryError
  | PermissionError.

(** The error taxonomy of the specification, and the class each Python
    exception falls in. *)
Inductive error_kind : Type :=
  | InvalidParameterError
  | PathNotFoundError
  | WriteError.

Definition classify (e : exn) : error_kind :=
  match e with
  | ValueError | TypeError | IndexError => InvalidParameterError
  | FileNotFoundError => PathNotFoundError
  | IsADirectoryError | PermissionError => WriteError
  end.

Inductive result (A : Type) : Type :=
  | Ok (a : A)
  | Raise (e : exn).
Arguments Ok {A} a.
Arguments Raise {A} e.

Definition result_map {A B} (f : A -> B) (r : result A) : result B :=
  match r with
  | Ok a => Ok (f a)
  | Raise e => Raise e
  end.

(** ** Integer arrays *)

(** A two-dimensional integer array, row by row.  An array without rows is
    the empty list, whatever its number of columns. *)
Definition matrix : Type := list (list Z).

(** [X.shape[1]]: every row of an array has this length. *)
Definition ncol (X : matrix) : nat :=
  match X with
  | [] => 0%nat
  | r :: _ => length r
  end.

Definition rectangular (X : matrix) : Prop :=
  Forall (fun r => length r = ncol X) X.

(** An entry of a binary matrix. *)
Definition bit (v : Z) : Prop := v = 0 \/ v = 1.

Definition binary (X : matrix) : Prop := Forall (Forall bit) X.

Definition nonnegative (X : matrix) : Prop :=
  Forall (Forall (fun v => 0 <= v)) X.

(** ** Text formatting *)

(** [str(z)], which is also ["%d" % z]: decimal digits, a leading minus
    sign for negative numbers. *)
Definition fmt_d (z : Z) : string := NilZero.string_of_int (Z.to_int z).

(** [sep.join(l)] *)
Fixpoint join (sep : string) (l : list string) : string :=
  match l with
  | [] => ""
  | [x] => x
  | x :: l' => x +:+ sep +:+ join sep l'
  end.

(** [s.count(c)] for a single character [c]. *)
Fixpoint count_char (c : ascii) (s : string) : nat :=
  match s with
  | EmptyString => 0%nat
  | String a s' => ((if Ascii.eqb a c then 1 else 0) + count_char c s')%nat
  end.

(** [f % tuple(args)] for format strings whose only conversion is [%d]:
    every [%d] consumes one argument; too few or too many arguments raise
    [TypeError], an unknown conversion raises [ValueError]. *)
Fixpoint percent_format (f : string) (args : list Z) : result string :=
  match f with
  | EmptyString =>
      match args with
      | [] => Ok ""
      | _ :: _ => Raise TypeError
      end
  | String a f' =>
      if Ascii.eqb a "%"%char then
        match f' with
        | String b f'' =>
            if Ascii.eqb b "d"%char then
              match args with
              | [] => Raise TypeError
              | z :: args' =>
                  result_map (fun s => fmt_d z +:+ s) (percent_format f'' args')
              end
            else Raise ValueError
        | EmptyString => Raise ValueError
        end
      else result_map (String a) (percent_format f' args)
  end.

(** ** The file system and the record of library calls *)

Inductive event : Type :=
  | ECall (rows columns : Z)     (* RotatedPlanarCode(rows, columns) *)
  | EOpen (path : string).       (* open(path, 'w') *)

Record state : Type := mk_state {
  dirs : gset string;            (* the directories that exist *)
  files : gmap string string;    (* the regular files and their content *)
  trace : list event             (* library calls made so far, oldest first *)
}.

(** A command runs in a state, returns a value or raises, and leaves a state. *)
Definition M (A : Type) : Type := state -> result A * state.

Definition ret {A} (a : A) : M A := fun s => (Ok a, s).
Definition bind {A B} (m : M A) (k : A -> M B) : M B :=
  fun s =>
    match m s with
    | (Ok a, s') => k a s'
    | (Raise e, s') => (Raise e, s')
    end.
Definition lift {A} (r : result A) : M A := fun s => (r, s).
Definition log (ev : event) : M unit :=
  fun s => (Ok tt, mk_state (dirs s) (files s) (trace s ++ [ev])).

Declare Scope m_scope.
Delimit Scope m_scope with M.
Notation "'let*' x := m 'in' k" := (bind m (fun x => k))
  (at level 10, x name, m at level 100, k at level 200) : m_scope.
Notation "m ;; k" := (bind m (fun _ => k))
  (at level 100, k at level 200, right associativity) : m_scope.

(** [for x in l: body(x)]: an exception raised by the body leaves the loop. *)
Fixpoint for_ {A} (l : list A) (body : A -> M unit) : M unit :=
  match l with
  | [] => ret tt
  | x :: l' => bind (body x) (fun _ => for_ l' body)
  end.

(** The directory a relative path lies in: the part of [p] before its last
    slash, empty (the working directory) when [p] has no slash. *)
Fixpoint parent (p : string) : string :=
  match p with
  | EmptyString => ""
  | String a p' =>
      if Nat.ltb 0 (count_char "/"%char p') then String a (parent p') else ""
  end.

(** [open(p, 'w')]: fails when the directory of [p] does not exist or when
    [p] names a directory; otherwise creates the file or truncates it.  The
    other ways in which an open can fail (permissions, a regular file in the
    place of the directory) are not part of the model. *)
Definition open_w (p : string) : M unit :=
  fun s =>
    let s1 := mk_state (dirs s) (files s) (trace s ++ [EOpen p]) in
    if bool_decide (parent p = "" \/ parent p ∈ dirs s) then
      if bool_decide (p ∈ dirs s) then (Raise IsADirectoryError, s1)
      else (Ok tt, mk_state (dirs s) (<[p := ""]> (files s)) (trace s1))
    else (Raise FileNotFoundError, s1).

(** [fh.write(v)] on the file opened at [p]: appends [v].  A write that
    fails (full disk, I/O fault) is not part of the model. *)
Definition write (p v : string) : M unit :=
  fun s =>
    (Ok tt,
     mk_state (dirs s)
       (<[p := default "" (files s !! p) +:+ v]> (files s)) (trace s)).

(** ** numpy.savetxt *)

Open Scope m_scope.

(** Modelled from the spec: numpy is imported by the script and is not
    part of its sources.  This is the format [savetxt] builds for one row: a
    format with a single conversion is repeated once per column and joined
    by the delimiter; otherwise it must have one conversion per column. *)
Definition row_format (fmt delimiter : string) (n : nat) : result string :=
  if Nat.eqb (count_char "%"%char fmt) 1 then
    Ok (join delimiter (replicate n fmt))
  else if Nat.eqb (count_char "%"%char fmt) n then Ok fmt
  else Raise ValueError.

(** The line feed character. *)
Definition LF : ascii := ascii_of_nat 10.

(** The default [newline] argument of [savetxt]. *)
Definition newline : string := String LF EmptyString.

(** Modelled from the spec: the conversion [np.asarray(X)] that [savetxt]
    applies to its argument.  An array is returned as it is; rows of
    different lengths are no array and raise [ValueError]. *)
Definition asarray (X : matrix) : result matrix :=
  if bool_decide (Forall (fun r => length r = ncol X) X) then Ok X
  else Raise ValueError.

(** Modelled from the spec: the missing library function
    [np.savetxt(fname, X, fmt=fmt, delimiter=delimiter)], the serializer of
    the specification, for a two-dimensional integer array [X] and numpy's
    defaults for the other arguments: newline ["\n"], no header, no footer.
    The file is opened first; then the argument is converted, and each row
    is formatted and written in turn. *)
Definition savetxt (fname : string) (X : matrix) (fmt delimiter : string) : M unit :=
  open_w fname ;;
  let* X := lift (asarray X) in
  let* format := lift (row_format fmt delimiter (ncol X)) in
  for_ X (fun row =>
    let* v := lift (percent_format format row) in
    write fname (v +:+ newline)).

(** ** The code-construction library *)

(** What the script uses of qecsim: the constructor
    [RotatedPlanarCode(rows, columns)], which returns a code or raises, and
    the [stabilizers] attribute of a code, a two-dimensional array.  [Env]
    is whatever else a call may depend on besides its arguments. *)
Class Collaborator (Env Code : Type) : Type := {
  RotatedPlanarCode : Env -> Z -> Z -> result Code;
  stabilizers : Code -> matrix
}.

(** The result of a construction depends on its arguments alone. *)
Definition deterministic `{Collaborator Env Code} : Prop :=
  forall (w1 w2 : Env) (rows columns : Z),
    result_map stabilizers (RotatedPlanarCode w1 rows columns) =
    result_map stabilizers (RotatedPlanarCode w2 rows columns).

(** ** The script *)

Section Script.
Context `{Collaborator Env Code}.
Variable w : Env.

(** The call [RotatedPlanarCode(rows, columns)], recorded in the trace. *)
Definition construct (rows columns : Z) : M Code :=
  log (ECall rows columns) ;;
  lift (RotatedPlanarCode w rows columns).

(** [def generate_surface_code_pcm(distance)] *)
Definition generate_surface_code_pcm (distance : Z) : M matrix :=
  let* myCode := construct distance distance in
  ret (stabilizers myCode).

(** [f"pcm_matrices/distance_{d}_surface_code.csv"] *)
Definition path (d : Z) : string :=
  "pcm_matrices/distance_" +:+ fmt_d d +:+ "_surface_code.csv".

(** The body of the loop, for one distance. *)
Definition iteration (d : Z) : M unit :=
  let* a := generate_surface_code_pcm d in
  savetxt (path d) a "%d" ",".

(** The distances the script loops over. *)
Definition distances : list Z := [3; 5; 7; 9; 11; 13; 15].

(** The loop, over any list of distances. *)
Definition driver (ds : list Z) : M unit := for_ ds iteration.

(** [if __name__ == '__main__':] *)
Definition main : M unit := driver distances.
End Script.

(** ** The rotated planar code of qecsim *)

(** The class [RotatedPlanarCode] of the qecsim library
    ([qecsim.models.rotatedplanar]) is imported by the script and is not
    part of its sources.  The specification describes it as the
    code-construction collaborator: given a distance it returns the
    stabilizer matrix of the d x d rotated planar surface code in the
    standard construction (8 generators over 9 qubits for d = 3), and it
    rejects sizes that are too small.  The module follows the library's
    construction: sites are indexed (x, y) from the lower left corner,
    plaquette (x, y) has the site (x, y) as its lower left corner, a
    plaquette is of X type when (x - y) % 2 == 1, the Z plaquettes come
    first, and a stabilizer is a row in binary symplectic form, the X part
    over all sites followed by the Z part. *)
Module qecsim.

(** Modelled from the spec: the code object of the missing class
    [RotatedPlanarCode], determined by its size (rows, columns). *)
Record code : Type := mk_code { size : Z * Z }.

(** Modelled from the spec: the smallest lattice the missing class
    accepts. *)
Definition MIN_SIZE : Z * Z := (3, 3).

(** Modelled from the spec: the missing constructor
    [RotatedPlanarCode.__init__(rows, columns)], which raises [ValueError]
    for a size below the minimum in either dimension. *)
Definition init (rows columns : Z) : result code :=
  let '(min_rows, min_cols) := MIN_SIZE in
  if (rows <? min_rows) || (columns <? min_cols) then Raise ValueError
  else Ok (mk_code (rows, columns)).

(** Modelled from the spec: the missing attribute [n_k_d], the number of
    qubits, the number of logical qubits and the distance. *)
Definition n_k_d (c : code) : Z * Z * Z :=
  let '(rows, cols) := size c in (rows * cols, 1, Z.min rows cols).

(** The number of qubits, as a length. *)
Definition n_qubits (c : code) : nat := Z.to_nat (fst (fst (n_k_d c))).

(** Modelled from the spec: the missing attribute [site_bounds], the
    largest x and y of a site. *)
Definition site_bounds (c : code) : Z * Z :=
  let '(rows, cols) := size c in (cols - 1, rows - 1).

(** Modelled from the spec: the missing method [is_x_plaquette]. *)
Definition is_x_plaquette (index : Z * Z) : bool :=
  let '(x, y) := index in (x - y) mod 2 =? 1.

(** Modelled from the spec: the missing method [is_z_plaquette]. *)
Definition is_z_plaquette (index : Z * Z) : bool :=
  negb (is_x_plaquette index).

(** Modelled from the spec: the missing method [is_in_site_bounds]. *)
Definition is_in_site_bounds (c : code) (index : Z * Z) : bool :=
  let '(x, y) := index in
  let '(max_site_x, max_site_y) := site_bounds c in
  (0 <=? x) && (x <=? max_site_x) && (0 <=? y) && (y <=? max_site_y).

(** Modelled from the spec: the missing method [is_in_plaquette_bounds].
    Plaquettes reach one step outside the lattice on the sides where the
    boundary is of their type. *)
Definition is_in_plaquette_bounds (c : code) (index : Z * Z) : bool :=
  let '(x, y) := index in
  let '(max_site_x, max_site_y) := site_bounds c in
  let min_x := if y mod 2 =? 0 then -1 else 0 in
  let max_x :=
    if max_site_x mod 2 =? 0
    then (if y mod 2 =? 0 then max_site_x - 1 else max_site_x)
    else (if y mod 2 =? 0 then max_site_x else max_site_x - 1) in
  let min_y := if x mod 2 =? 0 then 0 else -1 in
  let max_y :=
    if max_site_y mod 2 =? 0
    then (if x mod 2 =? 0 then max_site_y else max_site_y - 1)
    else (if x mod 2 =? 0 then max_site_y - 1 else max_site_y) in
  (min_x <=? x) && (x <=? max_x) && (min_y <=? y) && (y <=? max_y).

(** [range(lo, hi)] *)
Definition range (lo hi : Z) : list Z := seqZ lo (hi - lo).

(** Modelled from the spec: the missing attribute [_plaquette_indices]:
    two nested loops, y outside and x inside, that append each index in
    bounds to the list of its type; the Z list is followed by the X list. *)
Definition plaquette_indices (c : code) : list (Z * Z) :=
  let '(max_site_x, max_site_y) := site_bounds c in
  let '(z_plaquette_indices, x_plaquette_indices) :=
    foldl (fun acc y =>
      foldl (fun '(zs, xs) x =>
        let index := (x, y) in
        if is_in_plaquette_bounds c index then
          if is_z_plaquette index then (zs ++ [index], xs)
          else (zs, xs ++ [index])
        else (zs, xs))
        acc (range (-1) (max_site_x + 2)))
      ([], []) (range (-1) (max_site_y + 2)) in
  z_plaquette_indices ++ x_plaquette_indices.

(** Modelled from the spec: the missing class [RotatedPlanarPauli], a
    Pauli operator on the lattice: its X and its Z part, one entry per
    site. *)
Record pauli : Type := mk_pauli { p_xs : list Z; p_zs : list Z }.

(** The names of the Pauli operators ('X', 'Y', 'Z'). *)
Inductive operator : Type := X | Y | Z_.

(** Modelled from the spec: the missing method [new_pauli], the identity
    operator. *)
Definition new_pauli (c : code) : pauli :=
  mk_pauli (replicate (n_qubits c) 0) (replicate (n_qubits c) 0).

(** Modelled from the spec: the place of a site in the missing class's
    storage, row by row from the bottom row up. *)
Definition flatten_site_index (c : code) (index : Z * Z) : nat :=
  let '(rows, cols) := size c in
  let '(x, y) := index in
  Z.to_nat (x + y * cols).

(** [v ^ 1] *)
Definition flip (v : Z) : Z := Z.lxor v 1.

(** Modelled from the spec: the missing method [site(operator, index)],
    which flips the entries of the site; an index outside the lattice has
    no effect. *)
Definition site (c : code) (op : operator) (index : Z * Z) (p : pauli) : pauli :=
  if is_in_site_bounds c index then
    let flat_index := flatten_site_index c index in
    let xs := match op with
              | X | Y => alter flip flat_index (p_xs p)
              | Z_ => p_xs p
              end in
    let zs := match op with
              | Z_ | Y => alter flip flat_index (p_zs p)
              | X => p_zs p
              end in
    mk_pauli xs zs
  else p.

(** Modelled from the spec: the missing method [plaquette(index)], which
    applies the operator of the plaquette's type to its four corners. *)
Definition plaquette (c : code) (index : Z * Z) (p : pauli) : pauli :=
  let '(x, y) := index in
  if is_in_plaquette_bounds c index then
    let op := if is_z_plaquette index then Z_ else X in
    site c op (x + 1, y)
      (site c op (x + 1, y + 1)
        (site c op (x, y + 1)
          (site c op (x, y) p)))
  else p.

(** Modelled from the spec: the missing method [to_bsf], the binary
    symplectic form of an operator. *)
Definition to_bsf (p : pauli) : list Z := p_xs p ++ p_zs p.

(** Modelled from the spec: the missing attribute [stabilizers], one row
    per plaquette. *)
Definition code_stabilizers (c : code) : matrix :=
  map (fun i => to_bsf (plaquette c i (new_pauli c))) (plaquette_indices c).

End qecsim.

(** The library as the script's collaborator; its calls depend on nothing
    but their arguments. *)
#[export] Instance qecsim_collaborator : Collaborator unit qecsim.code := {
  RotatedPlanarCode := fun _ rows columns => qecsim.init rows columns;
  stabilizers := qecsim.code_stabilizers
}.

(** ** The text of a file, and reading it back *)

(** The text [savetxt] leaves in the file of an array written with
    [fmt="%d"] and [delimiter=","]: one line per row. *)
Definition row_text (row : list Z) : string := join "," (map fmt_d row).

Fixpoint csv_text (X : matrix) : string :=
  match X with
  | [] => ""
  | row :: X' => (row_text row +:+ newline) +:+ csv_text X'
  end.

(** The characters of a string. *)
Definition chars (s : string) : list ascii := list_ascii_of_string s.
Arguments chars : simpl never.

Definition is_digit (a : ascii) : Prop :=
  (48 <= nat_of_ascii a <= 57)%nat.

(** The alphabet of a produced file: digits, comma, line feed. *)
Definition csv_char (a : ascii) : Prop :=
  is_digit a \/ a = ","%char \/ a = LF.

(** [s.split(c)] for a single character [c]. *)
Fixpoint split_on (c : ascii) (s : string) : list string :=
  match s with
  | EmptyString => [""]
  | String a s' =>
      if Ascii.eqb a c then "" :: split_on c s'
      else match split_on c s' with
           | [] => [String a ""]
           | x :: l => String a x :: l
           end
  end.

(** [s.splitlines()] for line feeds: a final line feed starts no new line. *)
Fixpoint splitlines (s : string) : list string :=
  match s with
  | EmptyString => []
  | String a s' =>
      if Ascii.eqb a LF then "" :: splitlines s'
      else match splitlines s' with
           | [] => [String a ""]
           | x :: l => String a x :: l
           end
  end.

(** The results of a list of computations, or the first exception. *)
Fixpoint sequence {A} (l : list (result A)) : result (list A) :=
  match l with
  | [] => Ok []
  | Ok a :: l' => result_map (cons a) (sequence l')
  | Raise e :: _ => Raise e
  end.

(** [int(s)] for a decimal numeral with an optional minus sign. *)
Definition parse_int (s : string) : result Z :=
  match NilZero.int_of_string s with
  | Some d => Ok (Z.of_int d)
  | None => Raise ValueError
  end.

Definition parse_row (line : string) : result (list Z) :=
  if bool_decide (line = "") then Ok []
  else sequence (map parse_int (split_on ","%char line)).

(** Modelled from the spec: the script never reads its files back, so the
    reader of the round-trip property is missing from the sources.  It
    parses a comma-separated file into an integer matrix: one row per line,
    one integer per field, and all rows of the same length. *)
Definition parse_csv (text : string) : result matrix :=
  match sequence (map parse_row (splitlines text)) with
  | Ok X =>
      if bool_decide (Forall (fun r => length r = ncol X) X) then Ok X
      else Raise ValueError
  | Raise e => Raise e
  end.

(** The number of comma-separated fields of a line. *)
Definition n_fields (line : string) : nat := length (split_on ","%char line).


(** ** Counting *)

(** The number of elements of a list that pass a test. *)
Fixpoint count {A} (p : A -> bool) (l : list A) : nat :=
  match l with
  | [] => 0%nat
  | x :: l' => ((if p x then 1 else 0) + count p l')%nat
  end.

(** A Pauli operator over [n] sites in binary form. *)
Definition pauli_wf (n : nat) (p : qecsim.pauli) : Prop :=
  length (qecsim.p_xs p) = n /\ length (qecsim.p_zs p) = n /\
  Forall bit (qecsim.p_xs p) /\ Forall bit (qecsim.p_zs p).

(** ** The distances of the specification *)

(** The distances the specification calls invalid: non-positive, even, or
    below the minimum size of a surface code (sections 3 and 7). *)
Definition invalid_distance (d : Z) : Prop :=
  d <= 0 \/ d mod 2 = 0 \/ d < 3.

(** ** Example states *)

(** A working directory without the output directory. *)
Definition fresh_checkout : state := mk_state ∅ ∅ [].

(** A working directory in which [pcm_matrices] exists and is empty. *)
Definition prepared : state := mk_state {["pcm_matrices"]} ∅ [].

(** As [prepared], but the name of the file of distance 7 is taken by a
    directory. *)
Definition blocked : state :=
  mk_state {["pcm_matrices"; "pcm_matrices/distance_7_surface_code.csv"]} ∅ [].

(** The code of distance [d], as the constructor builds it. *)
Definition code_of (d : Z) : qecsim.code := qecsim.mk_code (d, d).

(** ** Tactics *)

(** Arithmetic with remainders of a division by a constant. *)
Ltac zmod := Z.to_euclidean_division_equations; lia.

(** A decidable proposition, by evaluation. *)
Ltac by_computation := apply (bool_decide_unpack _); vm_compute; reflexivity.
(** * Properties *)

(** ** Strings *)

Lemma app_cons (a : ascii) (s1 s2 : string) :
  String a s1 +:+ s2 = String a (s1 +:+ s2).
Proof. done. Qed.

Lemma app_empty_l (s : string) : "" +:+ s = s.
Proof. done. Qed.

Lemma chars_app (s1 s2 : string) : chars (s1 +:+ s2) = chars s1 ++ chars s2.
Proof.
  induction s1 as [|a s1 IH]; [done|].
  rewrite app_cons. unfold chars in *. simpl. by rewrite IH.
Qed.

Lemma chars_cons (a : ascii) (s : string) : chars (String a s) = a :: chars s.
Proof. done. Qed.

Lemma app_empty_r (s : string) : s +:+ "" = s.
Proof. induction s as [|a s IH]; [done|]. by rewrite app_cons, IH. Qed.

Lemma app_assoc_s (s1 s2 s3 : string) : (s1 +:+ s2) +:+ s3 = s1 +:+ (s2 +:+ s3).
Proof. induction s1 as [|a s1 IH]; [done|]. by rewrite !app_cons, IH. Qed.

Lemma count_char_app (c : ascii) (s1 s2 : string) :
  count_char c (s1 +:+ s2) = (count_char c s1 + count_char c s2)%nat.
Proof.
  induction s1 as [|a s1 IH]; [done|].
  rewrite app_cons. simpl. rewrite IH. lia.
Qed.

Lemma count_char_0 (c : ascii) (s : string) :
  c ∉ chars s -> count_char c s = 0%nat.
Proof.
  induction s as [|a s IH]; simpl; [done|].
  rewrite chars_cons, not_elem_of_cons. intros [Hne Hs].
  destruct (Ascii.eqb_spec a c); [congruence|]. by rewrite IH.
Qed.

(** The digits of a decimal numeral. *)
Lemma uint_digits (d : Decimal.uint) :
  Forall is_digit (chars (NilEmpty.string_of_uint d)).
Proof.
  induction d; simpl; try apply Forall_nil_2;
    rewrite chars_cons; apply Forall_cons_2; try done;
    unfold is_digit; vm_compute; lia.
Qed.

Lemma nzuint_digits (d : Decimal.uint) :
  Forall is_digit (chars (NilZero.string_of_uint d)).
Proof.
  destruct d; try apply (uint_digits _).
  simpl. rewrite chars_cons. apply Forall_cons_2; [|apply Forall_nil_2].
  unfold is_digit; vm_compute; lia.
Qed.

Lemma fmt_d_nonneg (z : Z) : 0 <= z -> Forall is_digit (chars (fmt_d z)).
Proof.
  intros Hz. unfold fmt_d. destruct z as [|p|p]; simpl.
  - apply (nzuint_digits (Decimal.D0 Decimal.Nil)).
  - apply nzuint_digits.
  - lia.
Qed.

Lemma fmt_d_chars (z : Z) :
  Forall (fun a => is_digit a \/ a = "-"%char) (chars (fmt_d z)).
Proof.
  unfold fmt_d. destruct z as [|p|p]; simpl.
  - eapply Forall_impl; [apply (nzuint_digits (Decimal.D0 Decimal.Nil))|]. tauto.
  - eapply Forall_impl; [apply nzuint_digits|]. simpl. tauto.
  - rewrite chars_cons. apply Forall_cons_2; [by right|].
    eapply Forall_impl; [apply nzuint_digits|]. simpl. tauto.
Qed.

Lemma fmt_d_no (c : ascii) (z : Z) :
  ~ is_digit c -> c <> "-"%char -> c ∉ chars (fmt_d z).
Proof.
  intros Hd Hm Hin. pose proof (fmt_d_chars z) as HF.
  rewrite Forall_forall in HF. destruct (HF c Hin); tauto.
Qed.

Lemma fmt_d_nonempty (z : Z) : fmt_d z <> "".
Proof.
  unfold fmt_d. destruct z as [|p|p]; simpl; try done.
  pose proof (Unsigned.to_uint_nonnil p).
  destruct (Pos.to_uint p); simpl; done.
Qed.

Lemma parse_fmt_d (z : Z) : parse_int (fmt_d z) = Ok z.
Proof.
  unfold parse_int, fmt_d. rewrite NilZero.isi.
  - by rewrite DecimalZ.of_to.
  - destruct z; simpl; try done.
    intros [= Hp]. by apply Unsigned.to_uint_nonnil in Hp.
  - destruct z; simpl; try done.
    intros [= Hp]. by apply Unsigned.to_uint_nonnil in Hp.
Qed.

Lemma fmt_d_inj (z1 z2 : Z) : fmt_d z1 = fmt_d z2 -> z1 = z2.
Proof.
  intros Heq. assert (Ok z1 = Ok z2) as [= ->]; [|done].
  by rewrite <- !parse_fmt_d, Heq.
Qed.

(** ** Splitting and joining *)

Lemma split_on_nosep (c : ascii) (s : string) :
  c ∉ chars s -> split_on c s = [s].
Proof.
  induction s as [|a s IH]; [done|].
  rewrite chars_cons, not_elem_of_cons. intros [Hne Hs]. simpl.
  destruct (Ascii.eqb_spec a c); [congruence|]. by rewrite IH.
Qed.

Lemma split_on_app (c : ascii) (s1 s2 : string) :
  c ∉ chars s1 -> split_on c (s1 +:+ String c s2) = s1 :: split_on c s2.
Proof.
  induction s1 as [|a s1 IH].
  - intros _. rewrite app_empty_l. simpl. by rewrite Ascii.eqb_refl.
  - rewrite chars_cons, not_elem_of_cons. intros [Hne Hs].
    rewrite app_cons. simpl.
    destruct (Ascii.eqb_spec a c); [congruence|]. by rewrite IH.
Qed.

Lemma split_join (c : ascii) (fs : list string) :
  fs <> [] -> Forall (fun f => c ∉ chars f) fs ->
  split_on c (join (String c "") fs) = fs.
Proof.
  induction fs as [|f fs IH]; [done|]. intros _ HF.
  apply Forall_cons_1 in HF as [Hf HF].
  destruct fs as [|g fs].
  - simpl. by apply split_on_nosep.
  - change (join (String c "") (f :: g :: fs))
      with (f +:+ String c "" +:+ join (String c "") (g :: fs)).
    rewrite app_cons, app_empty_l, split_on_app by done.
    by rewrite IH.
Qed.

Lemma splitlines_app (s rest : string) :
  LF ∉ chars s ->
  splitlines ((s +:+ newline) +:+ rest) = s :: splitlines rest.
Proof.
  unfold newline. rewrite app_assoc_s, app_cons, app_empty_l.
  induction s as [|a s IH].
  - intros _. by rewrite app_empty_l.
  - rewrite chars_cons, not_elem_of_cons. intros [Hne Hs].
    rewrite app_cons. cbn [splitlines].
    destruct (Ascii.eqb_spec a LF); [congruence|]. by rewrite IH.
Qed.

Lemma n_fields_join (fs : list string) :
  fs <> [] -> Forall (fun f => ","%char ∉ chars f) fs ->
  n_fields (join "," fs) = length fs.
Proof. intros Hne HF. unfold n_fields. by rewrite split_join. Qed.

(** ** The text of a row *)

Lemma comma_not_int_char : ~ is_digit ","%char /\ ","%char <> "-"%char.
Proof. split; [unfold is_digit; vm_compute; lia | done]. Qed.

Lemma LF_not_int_char : ~ is_digit LF /\ LF <> "-"%char.
Proof. split; [unfold is_digit; vm_compute; lia | done]. Qed.

Lemma fields_no_comma (row : list Z) :
  Forall (fun f => ","%char ∉ chars f) (map fmt_d row).
Proof.
  apply Forall_forall. intros f [z [-> _]]%list_elem_of_fmap.
  apply fmt_d_no; apply comma_not_int_char.
Qed.

Lemma join_chars (P : ascii -> Prop) (sep : string) (fs : list string) :
  Forall P (chars sep) -> Forall (fun f => Forall P (chars f)) fs ->
  Forall P (chars (join sep fs)).
Proof.
  intros Hsep. induction fs as [|f fs IH]; intros HF; [apply Forall_nil_2|].
  apply Forall_cons_1 in HF as [Hf HF]. destruct fs as [|g fs]; [done|].
  change (join sep (f :: g :: fs)) with (f +:+ sep +:+ join sep (g :: fs)).
  rewrite !chars_app, !Forall_app. auto.
Qed.

Lemma row_text_chars (row : list Z) :
  Forall (fun a => is_digit a \/ a = "-"%char \/ a = ","%char)
    (chars (row_text row)).
Proof.
  apply join_chars.
  - apply Forall_cons_2; [tauto | apply Forall_nil_2].
  - apply Forall_forall. intros f [z [-> _]]%list_elem_of_fmap.
    eapply Forall_impl; [apply fmt_d_chars|]. simpl. tauto.
Qed.

Lemma row_text_nonneg (row : list Z) :
  Forall (fun v => 0 <= v) row ->
  Forall (fun a => is_digit a \/ a = ","%char) (chars (row_text row)).
Proof.
  intros Hrow. apply join_chars.
  - apply Forall_cons_2; [tauto | apply Forall_nil_2].
  - apply Forall_forall. intros f [z [-> Hz]]%list_elem_of_fmap.
    rewrite Forall_forall in Hrow.
    eapply Forall_impl; [apply fmt_d_nonneg; auto|]. simpl. tauto.
Qed.

Lemma row_text_no_LF (row : list Z) : LF ∉ chars (row_text row).
Proof.
  intros Hin. pose proof (row_text_chars row) as HF.
  rewrite Forall_forall in HF. destruct (HF _ Hin) as [Hd|[Hm|Hc]].
  - by apply LF_not_int_char in Hd.
  - by apply LF_not_int_char in Hm.
  - done.
Qed.

Lemma row_text_cons (z : Z) (row : list Z) :
  row <> [] -> row_text (z :: row) = fmt_d z +:+ "," +:+ row_text row.
Proof. destruct row; done. Qed.

Lemma row_text_nonempty (row : list Z) : row <> [] -> row_text row <> "".
Proof.
  destruct row as [|z row]; [done|]. intros _.
  pose proof (fmt_d_nonempty z) as Hz.
  destruct row as [|z' row]; [done|].
  rewrite row_text_cons by done.
  destruct (fmt_d z); [done|]. by rewrite app_cons.
Qed.

(** [format % tuple(row)] with one [%d] per entry of the row. *)
Lemma percent_format_row (row : list Z) :
  percent_format (join "," (replicate (length row) "%d")) row = Ok (row_text row).
Proof.
  induction row as [|z row IH]; [done|].
  destruct row as [|z' row].
  - simpl. unfold row_text. simpl. by rewrite app_empty_r.
  - rewrite row_text_cons by done.
    change (join "," (replicate (length (z :: z' :: row)) "%d"))
      with ("%d" +:+ "," +:+ join "," (replicate (length (z' :: row)) "%d")).
    rewrite !app_cons, !app_empty_l.
    cbn [percent_format Ascii.eqb Bool.eqb]. by rewrite IH.
Qed.

(** A row whose length is not the number of conversions does not format. *)
Lemma percent_format_mismatch (n : nat) (row : list Z) :
  length row <> n ->
  percent_format (join "," (replicate n "%d")) row = Raise TypeError.
Proof.
  revert row. induction n as [|n IH]; intros row Hlen.
  - destruct row; done.
  - destruct n as [|n].
    + destruct row as [|z [|z' row]]; done.
    + change (join "," (replicate (S (S n)) "%d"))
        with ("%d" +:+ "," +:+ join "," (replicate (S n) "%d")).
      rewrite !app_cons, !app_empty_l.
      destruct row as [|z row]; [done|].
      cbn [percent_format Ascii.eqb Bool.eqb]. rewrite IH; [done|].
      simpl in Hlen. lia.
Qed.

(** ** Reading a text back *)

Lemma sequence_parse_int (row : list Z) :
  sequence (map parse_int (map fmt_d row)) = Ok row.
Proof.
  induction row as [|z row IH]; [done|].
  simpl. by rewrite parse_fmt_d, IH.
Qed.

Lemma parse_row_text (row : list Z) : parse_row (row_text row) = Ok row.
Proof.
  unfold parse_row. destruct row as [|z row]; [done|].
  rewrite bool_decide_eq_false_2 by by apply row_text_nonempty.
  unfold row_text. rewrite split_join; [| done | apply fields_no_comma].
  apply sequence_parse_int.
Qed.

Lemma splitlines_csv_text (X : matrix) :
  splitlines (csv_text X) = map row_text X.
Proof.
  induction X as [|row X IH]; [done|].
  simpl. rewrite splitlines_app by apply row_text_no_LF. by rewrite IH.
Qed.

Lemma sequence_parse_rows (X : matrix) :
  sequence (map parse_row (map row_text X)) = Ok X.
Proof.
  induction X as [|row X IH]; [done|].
  simpl. by rewrite parse_row_text, IH.
Qed.

Lemma parse_csv_text (X : matrix) :
  rectangular X -> parse_csv (csv_text X) = Ok X.
Proof.
  intros HX. unfold parse_csv.
  rewrite splitlines_csv_text, sequence_parse_rows.
  by rewrite bool_decide_eq_true_2.
Qed.

Lemma csv_text_chars (P : ascii -> Prop) (X : matrix) :
  P LF -> Forall (fun row => Forall P (chars (row_text row))) X ->
  Forall P (chars (csv_text X)).
Proof.
  intros HLF. induction X as [|row X IH]; intros HX; [apply Forall_nil_2|].
  apply Forall_cons_1 in HX as [Hrow HX]. simpl.
  rewrite !chars_app, !Forall_app. split_and!; auto.
  apply Forall_cons_2; [done | apply Forall_nil_2].
Qed.

(** A binary matrix has no negative entry. *)
Lemma binary_nonnegative (X : matrix) : binary X -> nonnegative X.
Proof.
  unfold binary, nonnegative. intros HX.
  eapply Forall_impl; [exact HX|]. intros row Hrow. cbn beta in Hrow.
  eapply Forall_impl; [exact Hrow|]. intros v [->| ->]; lia.
Qed.

(** ** Commands *)

Lemma state_eta (s : state) : mk_state (dirs s) (files s) (trace s) = s.
Proof. by destruct s. Qed.

Lemma for_app {A} (l1 l2 : list A) (body : A -> M unit) (s : state) :
  for_ (l1 ++ l2) body s =
  match for_ l1 body s with
  | (Ok _, s') => for_ l2 body s'
  | (Raise e, s') => (Raise e, s')
  end.
Proof.
  revert s. induction l1 as [|x l1 IH]; intros s; [done|].
  simpl. unfold bind. destruct (body x s) as [[[]|e] s']; [apply IH | done].
Qed.

Lemma bind_lift {A B} (r : result A) (k : A -> M B) (s : state) :
  bind (lift r) k s =
  match r with
  | Ok a => k a s
  | Raise e => (Raise e, s)
  end.
Proof. by destruct r. Qed.

(** Opening a file: the three outcomes. *)
Lemma open_w_ok (p : string) (s : state) :
  parent p = "" \/ parent p ∈ dirs s -> p ∉ dirs s ->
  open_w p s =
  (Ok tt, mk_state (dirs s) (<[p := ""]> (files s)) (trace s ++ [EOpen p])).
Proof.
  intros Hpar Hp. unfold open_w.
  by rewrite bool_decide_eq_true_2, bool_decide_eq_false_2.
Qed.

Lemma open_w_no_dir (p : string) (s : state) :
  ~ (parent p = "" \/ parent p ∈ dirs s) ->
  open_w p s =
  (Raise FileNotFoundError, mk_state (dirs s) (files s) (trace s ++ [EOpen p])).
Proof. intros Hpar. unfold open_w. by rewrite bool_decide_eq_false_2. Qed.

Lemma open_w_is_dir (p : string) (s : state) :
  parent p = "" \/ parent p ∈ dirs s -> p ∈ dirs s ->
  open_w p s =
  (Raise IsADirectoryError, mk_state (dirs s) (files s) (trace s ++ [EOpen p])).
Proof.
  intros Hpar Hp. unfold open_w. by rewrite !bool_decide_eq_true_2.
Qed.

(** The rows written one after the other: a row that does not format stops
    the loop, and what was written before it stays in the file.  The result
    and the text written depend on the rows and the format only. *)
Lemma write_rows_effect (p format : string) (rows : matrix) :
  exists (r : result unit) (v : string),
    forall (s : state) (t0 : string),
      files s !! p = Some t0 ->
      for_ rows (fun row =>
        let* v := lift (percent_format format row) in
        write p (v +:+ newline)) s =
      (r, mk_state (dirs s) (<[p := t0 +:+ v]> (files s)) (trace s)).
Proof.
  induction rows as [|row rows (r & v & IH)].
  - exists (Ok tt), "". intros s t0 Ht0. simpl. unfold ret.
    rewrite app_empty_r, insert_id by done. by rewrite state_eta.
  - destruct (percent_format format row) as [line|e] eqn:Hrow.
    + exists r, ((line +:+ newline) +:+ v). intros s t0 Ht0.
      cbn [for_]. unfold bind at 1. rewrite bind_lift, Hrow.
      unfold write at 1. rewrite Ht0. cbn [default].
      erewrite IH by (cbn [files]; apply lookup_insert_eq). cbn [dirs files trace].
      by rewrite insert_insert_eq, !app_assoc_s.
    + exists (Raise e), "". intros s t0 Ht0.
      cbn [for_]. unfold bind at 1. rewrite bind_lift, Hrow.
      rewrite app_empty_r, insert_id by done. by rewrite state_eta.
Qed.

(** When every row has the length the format expects, the loop writes the
    whole text. *)
Lemma write_rows_ok (p : string) (n : nat) (rows : matrix) (s : state) (t0 : string) :
  Forall (fun row => length row = n) rows ->
  files s !! p = Some t0 ->
  for_ rows (fun row =>
    let* v := lift (percent_format (join "," (replicate n "%d")) row) in
    write p (v +:+ newline)) s =
  (Ok tt, mk_state (dirs s) (<[p := t0 +:+ csv_text rows]> (files s)) (trace s)).
Proof.
  intros Hrows. revert s t0.
  induction Hrows as [|row rows Hrow Hrows IH]; intros s t0 Ht0.
  - simpl. unfold ret.
    rewrite app_empty_r, insert_id by done. by rewrite state_eta.
  - cbn [for_]. unfold bind at 1. rewrite bind_lift.
    rewrite <- Hrow at 1. rewrite percent_format_row.
    unfold write at 1. rewrite Ht0. cbn [default].
    erewrite IH by (cbn [files]; apply lookup_insert_eq). cbn [dirs files trace csv_text].
    by rewrite insert_insert_eq, !app_assoc_s.
Qed.

(** ** savetxt *)

Lemma savetxt_no_dir (fname : string) (X : matrix) (fmt delimiter : string) (s : state) :
  ~ (parent fname = "" \/ parent fname ∈ dirs s) ->
  savetxt fname X fmt delimiter s =
  (Raise FileNotFoundError,
   mk_state (dirs s) (files s) (trace s ++ [EOpen fname])).
Proof.
  intros Hpar. unfold savetxt, bind. by rewrite open_w_no_dir.
Qed.

Lemma savetxt_is_dir (fname : string) (X : matrix) (fmt delimiter : string) (s : state) :
  parent fname = "" \/ parent fname ∈ dirs s -> fname ∈ dirs s ->
  savetxt fname X fmt delimiter s =
  (Raise IsADirectoryError,
   mk_state (dirs s) (files s) (trace s ++ [EOpen fname])).
Proof.
  intros Hpar Hp. unfold savetxt, bind. by rewrite open_w_is_dir.
Qed.

Lemma savetxt_ok (fname : string) (X : matrix) (s : state) :
  parent fname = "" \/ parent fname ∈ dirs s -> fname ∉ dirs s ->
  rectangular X ->
  savetxt fname X "%d" "," s =
  (Ok tt,
   mk_state (dirs s) (<[fname := csv_text X]> (files s))
     (trace s ++ [EOpen fname])).
Proof.
  intros Hpar Hp HX. unfold savetxt. unfold bind at 1.
  rewrite open_w_ok by done. rewrite bind_lift. unfold asarray.
  rewrite bool_decide_eq_true_2 by exact HX.
  rewrite bind_lift. unfold row_format.
  cbn [count_char Ascii.eqb Bool.eqb Nat.add Nat.eqb].
  erewrite write_rows_ok; [| exact HX | cbn [files]; apply lookup_insert_eq].
  cbn [dirs files trace]. by rewrite insert_insert_eq, app_empty_l.
Qed.

(** Whatever the array and the format, [savetxt] leaves the directories
    alone, records the opening of the file, and either leaves the files
    alone or replaces the content of [fname]; which of the two, the new
    content and the result depend on the arguments and on the directories
    only. *)
Lemma savetxt_effect (fname : string) (X : matrix) (fmt delimiter : string) (D : gset string) :
  exists (r : result unit) (o : option string),
    forall s : state, dirs s = D ->
      savetxt fname X fmt delimiter s =
      (r, mk_state D
            (match o with Some v => <[fname := v]> (files s) | None => files s end)
            (trace s ++ [EOpen fname])).
Proof.
  destruct (decide (parent fname = "" \/ parent fname ∈ D)) as [Hpar|Hpar].
  - destruct (decide (fname ∈ D)) as [Hp|Hp].
    + exists (Raise IsADirectoryError), None. intros s <-.
      by apply savetxt_is_dir.
    + destruct (asarray X) as [X'|e] eqn:Harr.
      * destruct (row_format fmt delimiter (ncol X')) as [format|e] eqn:Hfmt.
        -- destruct (write_rows_effect fname format X') as (r & v & Hrows).
           exists r, (Some v). intros s <-.
           unfold savetxt. unfold bind at 1. rewrite open_w_ok by done.
           rewrite bind_lift, Harr, bind_lift, Hfmt.
           erewrite Hrows by (cbn [files]; apply lookup_insert_eq).
           cbn [dirs files trace]. by rewrite insert_insert_eq, app_empty_l.
        -- exists (Raise e), (Some ""). intros s <-.
           unfold savetxt. unfold bind at 1. rewrite open_w_ok by done.
           by rewrite bind_lift, Harr, bind_lift, Hfmt.
      * exists (Raise e), (Some ""). intros s <-.
        unfold savetxt. unfold bind at 1. rewrite open_w_ok by done.
        by rewrite bind_lift, Harr.
  - exists (Raise FileNotFoundError), None. intros s <-.
    by apply savetxt_no_dir.
Qed.

(** ** The output paths *)

Lemma parent_app (pre rest : string) :
  "/"%char ∉ chars rest -> parent (pre +:+ String "/" rest) = pre.
Proof.
  intros Hrest. induction pre as [|a pre IH].
  - rewrite app_empty_l. cbn [parent]. by rewrite count_char_0.
  - rewrite app_cons. cbn [parent]. rewrite count_char_app. cbn [count_char].
    rewrite Ascii.eqb_refl, IH.
    by destruct (count_char "/" pre).
Qed.

Lemma slash_not_int_char : ~ is_digit "/"%char /\ "/"%char <> "-"%char.
Proof. split; [unfold is_digit; vm_compute; lia | done]. Qed.

Lemma path_parent (d : Z) : parent (path d) = "pcm_matrices".
Proof.
  unfold path.
  change ("pcm_matrices/distance_" +:+ fmt_d d +:+ "_surface_code.csv")
    with ("pcm_matrices" +:+
          String "/" ("distance_" +:+ fmt_d d +:+ "_surface_code.csv")).
  apply parent_app. rewrite !chars_app, !not_elem_of_app. split_and!.
  - by apply (bool_decide_unpack _).
  - apply fmt_d_no; apply slash_not_int_char.
  - by apply (bool_decide_unpack _).
Qed.

Lemma chars_inj (s1 s2 : string) : chars s1 = chars s2 -> s1 = s2.
Proof.
  unfold chars. intros Heq.
  by rewrite <- (string_of_list_ascii_of_string s1), Heq,
    string_of_list_ascii_of_string.
Qed.

Lemma app_inv_tail_s (s1 s2 t : string) : s1 +:+ t = s2 +:+ t -> s1 = s2.
Proof.
  intros Heq. apply chars_inj. apply (f_equal chars) in Heq.
  rewrite !chars_app in Heq. by apply app_inv_tail in Heq.
Qed.

Lemma path_inj (d1 d2 : Z) : path d1 = path d2 -> d1 = d2.
Proof.
  unfold path. intros Heq. apply String.app_inj in Heq.
  apply app_inv_tail_s in Heq. by apply fmt_d_inj.
Qed.

Lemma EOpen_path_inj (d1 d2 : Z) : EOpen (path d1) = EOpen (path d2) -> d1 = d2.
Proof.
  intros Heq. apply path_inj.
  exact (f_equal (fun ev => match ev with EOpen p => p | ECall _ _ => "" end) Heq).
Qed.

Lemma path_has_parent (d : Z) (s : state) :
  "pcm_matrices" ∈ dirs s ->
  parent (path d) = "" \/ parent (path d) ∈ dirs s.
Proof. intros Hdir. right. by rewrite path_parent. Qed.

Lemma path_no_parent (d : Z) (s : state) :
  "pcm_matrices" ∉ dirs s ->
  ~ (parent (path d) = "" \/ parent (path d) ∈ dirs s).
Proof. rewrite path_parent. intros Hdir [Hp|Hp]; done. Qed.

(** ** The function and one iteration of the loop *)

Section ScriptFacts.
Context `{Collaborator Env Code}.

Lemma generate_eq (w : Env) (d : Z) (s : state) :
  generate_surface_code_pcm w d s =
  (result_map stabilizers (RotatedPlanarCode w d d),
   mk_state (dirs s) (files s) (trace s ++ [ECall d d])).
Proof.
  unfold generate_surface_code_pcm, construct, bind, log, lift.
  by destruct (RotatedPlanarCode w d d).
Qed.

Lemma iteration_eq (w : Env) (d : Z) (s : state) :
  iteration w d s =
  match result_map stabilizers (RotatedPlanarCode w d d) with
  | Ok a =>
      savetxt (path d) a "%d" ","
        (mk_state (dirs s) (files s) (trace s ++ [ECall d d]))
  | Raise e =>
      (Raise e, mk_state (dirs s) (files s) (trace s ++ [ECall d d]))
  end.
Proof.
  unfold iteration. unfold bind at 1. rewrite generate_eq.
  by destruct (RotatedPlanarCode w d d).
Qed.

Lemma iteration_raise (w : Env) (d : Z) (e : exn) (s : state) :
  RotatedPlanarCode w d d = Raise e ->
  iteration w d s =
  (Raise e, mk_state (dirs s) (files s) (trace s ++ [ECall d d])).
Proof. intros Hc. by rewrite iteration_eq, Hc. Qed.

Lemma iteration_ok (w : Env) (d : Z) (c : Code) (s : state) :
  RotatedPlanarCode w d d = Ok c ->
  "pcm_matrices" ∈ dirs s -> path d ∉ dirs s ->
  rectangular (stabilizers c) ->
  iteration w d s =
  (Ok tt,
   mk_state (dirs s) (<[path d := csv_text (stabilizers c)]> (files s))
     (trace s ++ [ECall d d; EOpen (path d)])).
Proof.
  intros Hc Hdir Hp HX. rewrite iteration_eq, Hc. cbn [result_map].
  rewrite savetxt_ok; [| by apply path_has_parent | done | done].
  cbn [dirs files trace]. by rewrite <- app_assoc.
Qed.

Lemma iteration_no_dir (w : Env) (d : Z) (c : Code) (s : state) :
  RotatedPlanarCode w d d = Ok c ->
  "pcm_matrices" ∉ dirs s ->
  iteration w d s =
  (Raise FileNotFoundError,
   mk_state (dirs s) (files s) (trace s ++ [ECall d d; EOpen (path d)])).
Proof.
  intros Hc Hdir. rewrite iteration_eq, Hc. cbn [result_map].
  rewrite savetxt_no_dir by by apply path_no_parent.
  cbn [dirs files trace]. by rewrite <- app_assoc.
Qed.

(** One iteration leaves the directories alone, extends the trace, and
    changes no file but the one of its distance; what it does depends on
    the directories and on what the constructor returns. *)
Lemma iteration_effect (w1 w2 : Env) (d : Z) (D : gset string) :
  result_map stabilizers (RotatedPlanarCode w1 d d) =
  result_map stabilizers (RotatedPlanarCode w2 d d) ->
  exists (r : result unit) (K : gmap string string) (evs : list event),
    (forall p, p <> path d -> K !! p = None) /\
    (forall ev, ev ∈ evs -> ev = ECall d d \/ ev = EOpen (path d)) /\
    forall s : state, dirs s = D ->
      iteration w1 d s = (r, mk_state D (K ∪ files s) (trace s ++ evs)) /\
      iteration w2 d s = (r, mk_state D (K ∪ files s) (trace s ++ evs)).
Proof.
  intros Hdet.
  destruct (result_map stabilizers (RotatedPlanarCode w2 d d)) as [a|e] eqn:Hw2.
  - destruct (savetxt_effect (path d) a "%d" "," D) as (r & o & Hsave).
    exists r, (match o with Some v => {[path d := v]} | None => ∅ end),
      [ECall d d; EOpen (path d)].
    split_and!.
    + intros p Hp. destruct o; [by apply lookup_singleton_ne | done].
    + intros ev. rewrite !elem_of_cons, elem_of_nil. tauto.
    + intros s <-. rewrite !iteration_eq, Hdet, Hw2.
      rewrite Hsave by done. cbn [dirs files trace].
      rewrite <- app_assoc. cbn [app]. split; f_equal; f_equal.
      all: destruct o;
        [apply insert_union_singleton_l | by rewrite (left_id_L ∅ (∪))].
  - exists (Raise e), ∅, [ECall d d]. split_and!.
    + done.
    + intros ev. rewrite elem_of_cons, elem_of_nil. tauto.
    + intros s <-. rewrite !iteration_eq, Hdet, Hw2.
      by rewrite (left_id_L ∅ (∪)).
Qed.
End ScriptFacts.

(** A row of the wrong length stops the loop with [TypeError]. *)
Lemma write_rows_ragged (p : string) (n : nat) (rows : matrix) (s : state) :
  ~ Forall (fun row => length row = n) rows ->
  (for_ rows (fun row =>
     let* v := lift (percent_format (join "," (replicate n "%d")) row) in
     write p (v +:+ newline)) s).1 = Raise TypeError.
Proof.
  revert s. induction rows as [|row rows IH]; intros s Hrows.
  - destruct Hrows. apply Forall_nil_2.
  - cbn [for_]. unfold bind at 1. rewrite bind_lift.
    destruct (decide (length row = n)) as [Hrow|Hrow].
    + rewrite <- Hrow at 1. rewrite percent_format_row. unfold write at 1.
      apply IH. intros Hrest. apply Hrows. by apply Forall_cons_2.
    + by rewrite percent_format_mismatch.
Qed.

Lemma savetxt_ragged (fname : string) (X : matrix) (s : state) :
  ~ rectangular X -> (savetxt fname X "%d" "," s).1 <> Ok tt.
Proof.
  intros HX. unfold savetxt. unfold bind at 1.
  destruct (open_w fname s) as [[[]|e] s1]; [|done].
  rewrite bind_lift. unfold asarray.
  by rewrite bool_decide_eq_false_2 by exact HX.
Qed.

(** ** The loop *)

Section DriverFacts.
Context `{Collaborator Env Code}.

Lemma driver_cons (w : Env) (d : Z) (ds : list Z) (s : state) :
  driver w (d :: ds) s =
  match iteration w d s with
  | (Ok _, s') => driver w ds s'
  | (Raise e, s') => (Raise e, s')
  end.
Proof. done. Qed.

Lemma driver_app (w : Env) (ds1 ds2 : list Z) (s : state) :
  driver w (ds1 ++ ds2) s =
  match driver w ds1 s with
  | (Ok _, s') => driver w ds2 s'
  | (Raise e, s') => (Raise e, s')
  end.
Proof. apply for_app. Qed.

(** An iteration that returns has constructed the code and written its
    matrix. *)
Lemma iteration_Ok_inv (w : Env) (d : Z) (s s' : state) :
  iteration w d s = (Ok tt, s') ->
  exists c : Code,
    RotatedPlanarCode w d d = Ok c /\
    rectangular (stabilizers c) /\
    (parent (path d) = "" \/ parent (path d) ∈ dirs s) /\
    (path d ∉ dirs s) /\
    s' = mk_state (dirs s) (<[path d := csv_text (stabilizers c)]> (files s))
           (trace s ++ [ECall d d; EOpen (path d)]).
Proof.
  rewrite iteration_eq.
  destruct (RotatedPlanarCode w d d) as [c|e]; [|done]. cbn [result_map].
  intros Hsave. exists c.
  destruct (decide (parent (path d) = "" \/ parent (path d) ∈ dirs s)) as [Hpar|Hpar];
    [|by rewrite savetxt_no_dir in Hsave].
  destruct (decide (path d ∈ dirs s)) as [Hp|Hp];
    [by rewrite savetxt_is_dir in Hsave|].
  destruct (decide (Forall (fun r => length r = ncol (stabilizers c)) (stabilizers c)))
    as [HX|HX].
  - rewrite savetxt_ok in Hsave by done. cbn [dirs files trace] in Hsave.
    rewrite <- app_assoc in Hsave. by injection Hsave as <-.
  - apply (savetxt_ragged (path d)
             _ (mk_state (dirs s) (files s) (trace s ++ [ECall d d]))) in HX.
    by rewrite Hsave in HX.
Qed.

(** The events of a run over [ds]. *)
Lemma driver_Ok_inv (w : Env) (ds : list Z) (s s' : state) :
  driver w ds s = (Ok tt, s') ->
  dirs s' = dirs s /\
  trace s' = trace s ++ (ds ≫= fun d => [ECall d d; EOpen (path d)]) /\
  (forall p, p ∉ path <$> ds -> files s' !! p = files s !! p) /\
  (forall d, d ∈ ds ->
     exists c, RotatedPlanarCode w d d = Ok c /\
               rectangular (stabilizers c) /\
               files s' !! path d = Some (csv_text (stabilizers c))).
Proof.
  revert s. induction ds as [|d ds IH]; intros s.
  - intros [= <-]. split_and!; try done.
    + by rewrite app_nil_r.
    + intros d Hd. by apply elem_of_nil in Hd.
  - rewrite driver_cons.
    destruct (iteration w d s) as [[[]|e] s1] eqn:Hit; [|done].
    apply iteration_Ok_inv in Hit as (c & Hc & HX & _ & _ & ->).
    intros (Hdirs & Htrace & Hother & Hfiles)%IH.
    cbn [dirs files trace] in *. split_and!.
    + done.
    + rewrite Htrace, <- app_assoc. done.
    + intros p Hp. rewrite fmap_cons, not_elem_of_cons in Hp.
      destruct Hp as [Hne Hp]. rewrite Hother by done.
      by apply lookup_insert_ne.
    + intros d' Hd'. destruct (decide (d' ∈ ds)) as [Hin|Hin]; [by apply Hfiles|].
      apply elem_of_cons in Hd' as [->|Hd']; [|done].
      exists c. split_and!; try done.
      rewrite Hother; [apply lookup_insert_eq|].
      intros (d' & Hpath & Hd')%list_elem_of_fmap.
      apply path_inj in Hpath as <-. done.
Qed.

(** A run in which every construction succeeds and every file can be
    opened. *)
Lemma driver_ok (w : Env) (code_of : Z -> Code) (ds : list Z) (s : state) :
  "pcm_matrices" ∈ dirs s ->
  (forall d, d ∈ ds ->
     RotatedPlanarCode w d d = Ok (code_of d) /\
     rectangular (stabilizers (code_of d)) /\
     path d ∉ dirs s) ->
  exists s' : state, driver w ds s = (Ok tt, s').
Proof.
  revert s. induction ds as [|d ds IH]; intros s Hdir Hds.
  - by exists s.
  - destruct (Hds d) as (Hc & HX & Hp); [apply elem_of_cons; by left|].
    rewrite driver_cons, (iteration_ok w d (code_of d)) by done.
    apply IH; [done|]. intros d' Hd'. apply Hds. apply elem_of_cons. by right.
Qed.

(** What a run does depends on the directories and on what the
    constructor returns: the directories stay, the trace grows by events
    of the distances, and some files of the distances are replaced. *)
Lemma driver_effect (w1 w2 : Env) (ds : list Z) (D : gset string) :
  (forall d, d ∈ ds ->
     result_map stabilizers (RotatedPlanarCode w1 d d) =
     result_map stabilizers (RotatedPlanarCode w2 d d)) ->
  exists (r : result unit) (K : gmap string string) (evs : list event),
    (forall p, p ∉ path <$> ds -> K !! p = None) /\
    (forall ev, ev ∈ evs ->
       exists d, d ∈ ds /\ (ev = ECall d d \/ ev = EOpen (path d))) /\
    forall s : state, dirs s = D ->
      driver w1 ds s = (r, mk_state D (K ∪ files s) (trace s ++ evs)) /\
      driver w2 ds s = (r, mk_state D (K ∪ files s) (trace s ++ evs)).
Proof.
  induction ds as [|d ds IH]; intros Hdet.
  - exists (Ok tt), ∅, []. split_and!; [done | by intros ev ?%elem_of_nil |].
    intros s <-. rewrite (left_id_L ∅ (∪)), app_nil_r.
    by rewrite state_eta.
  - destruct (iteration_effect w1 w2 d D) as (r1 & K1 & evs1 & HK1 & Hevs1 & Hit);
      [apply Hdet, elem_of_cons; by left|].
    destruct IH as (r2 & K2 & evs2 & HK2 & Hevs2 & Hdr);
      [intros d' Hd'; apply Hdet, elem_of_cons; by right|].
    destruct r1 as [[]|e].
    + exists r2, (K2 ∪ K1), (evs1 ++ evs2). split_and!.
      * intros p Hp. rewrite fmap_cons, not_elem_of_cons in Hp.
        destruct Hp as [Hne Hp]. apply lookup_union_None. auto.
      * intros ev [Hev|Hev]%elem_of_app.
        -- exists d. split; [apply elem_of_cons; by left | auto].
        -- destruct (Hevs2 ev Hev) as (d' & Hd' & Hd'').
           exists d'. split; [apply elem_of_cons; by right | done].
      * intros s Hs. rewrite !driver_cons.
        destruct (Hit s Hs) as [-> ->].
        destruct (Hdr (mk_state D (K1 ∪ files s) (trace s ++ evs1)) eq_refl)
          as [-> ->].
        cbn [dirs files trace].
        by rewrite (assoc_L (∪)), <- app_assoc.
    + exists (Raise e), K1, evs1. split_and!.
      * intros p Hp. rewrite fmap_cons, not_elem_of_cons in Hp.
        destruct Hp as [Hne Hp]. auto.
      * intros ev Hev. exists d. split; [apply elem_of_cons; by left | auto].
      * intros s Hs. rewrite !driver_cons.
        by destruct (Hit s Hs) as [-> ->].
Qed.
End DriverFacts.

(** * The claims about the script and the serializer *)

(** C2: for every integer [d], [generate_surface_code_pcm(d)] makes the one
    call [RotatedPlanarCode(d, d)] and returns the [stabilizers] of the code
    it gets, as it is; when the constructor raises, that exception is the
    result.  The function checks nothing itself and touches no file. *)
Theorem generate_surface_code_pcm_spec `{Collaborator Env Code}
    (w : Env) (d : Z) (s : state) :
  generate_surface_code_pcm w d s =
  (match RotatedPlanarCode w d d with
   | Ok myCode => Ok (stabilizers myCode)
   | Raise e => Raise e
   end,
   mk_state (dirs s) (files s) (trace s ++ [ECall d d])).
Proof. apply generate_eq. Qed.

(** C3: the file [savetxt] writes for a two-dimensional array of
    non-negative integers holds one line per row and nothing else (no
    header), every line ends with a line feed, the fields of a line are the
    decimal numerals of the entries of its row separated by commas, every
    character of the file is a digit, a comma or a line feed, and all lines
    have the same number of fields. *)
Theorem savetxt_format (fname : string) (X : matrix) (s : state) :
  parent fname = "" \/ parent fname ∈ dirs s -> fname ∉ dirs s ->
  rectangular X -> nonnegative X ->
  exists (s' : state) (text : string),
    savetxt fname X "%d" "," s = (Ok tt, s') /\
    files s' !! fname = Some text /\
    text = csv_text X /\
    splitlines text = map row_text X /\
    Forall2 (fun line row => split_on ","%char line =
                             if decide (row = []) then [""] else map fmt_d row)
      (splitlines text) X /\
    Forall csv_char (chars text) /\
    Forall (fun line => n_fields line = Nat.max 1 (ncol X)) (splitlines text).
Proof.
  intros Hpar Hp HX Hnn.
  exists (mk_state (dirs s) (<[fname := csv_text X]> (files s))
            (trace s ++ [EOpen fname])), (csv_text X).
  assert (forall row, split_on ","%char (row_text row) =
                      if decide (row = []) then [""] else map fmt_d row) as Hsplit.
  { intros row. destruct (decide (row = [])) as [->|Hrow]; [done|].
    unfold row_text. apply split_join; [by destruct row | apply fields_no_comma]. }
  split_and!.
  - by apply savetxt_ok.
  - apply lookup_insert_eq.
  - done.
  - apply splitlines_csv_text.
  - rewrite splitlines_csv_text. apply Forall2_fmap_l, Forall_Forall2_diag.
    apply Forall_forall. intros row _. apply Hsplit.
  - apply csv_text_chars; [by right; right|].
    eapply Forall_impl; [exact Hnn|]. intros row Hrow. cbn beta in Hrow.
    eapply Forall_impl; [by apply row_text_nonneg|]. intros a Ha. cbn beta in Ha.
    unfold csv_char. tauto.
  - rewrite splitlines_csv_text, Forall_fmap.
    eapply Forall_impl; [exact HX|]. intros row Hrow. cbn beta in Hrow.
    unfold compose, n_fields. rewrite Hsplit, <- Hrow.
    destruct (decide (row = [])) as [->|Hne]; [done|].
    rewrite length_map. destruct row; [done | simpl; lia].
Qed.

(** C9: reading back the file [savetxt] wrote for a two-dimensional
    integer array, of any sign and size, gives the array again. *)
Theorem savetxt_round_trip (fname : string) (X : matrix) (s : state) :
  parent fname = "" \/ parent fname ∈ dirs s -> fname ∉ dirs s ->
  rectangular X ->
  exists (s' : state) (text : string),
    savetxt fname X "%d" "," s = (Ok tt, s') /\
    files s' !! fname = Some text /\
    parse_csv text = Ok X.
Proof.
  intros Hpar Hp HX.
  exists (mk_state (dirs s) (<[fname := csv_text X]> (files s))
            (trace s ++ [EOpen fname])), (csv_text X).
  split_and!.
  - by apply savetxt_ok.
  - apply lookup_insert_eq.
  - by apply parse_csv_text.
Qed.

(** C5: when the constructor rejects a distance, the exception it raises is
    what [generate_surface_code_pcm], the iteration and the loop raise,
    whatever distances follow: nothing catches it, no file is opened or
    written, the directories and the files are as before, and the only
    event is the call of the constructor. *)
Theorem rejected_distance_propagates `{Collaborator Env Code}
    (w : Env) (d : Z) (e : exn) (rest : list Z) (s : state) :
  RotatedPlanarCode w d d = Raise e ->
  generate_surface_code_pcm w d s =
    (Raise e, mk_state (dirs s) (files s) (trace s ++ [ECall d d])) /\
  iteration w d s =
    (Raise e, mk_state (dirs s) (files s) (trace s ++ [ECall d d])) /\
  driver w (d :: rest) s =
    (Raise e, mk_state (dirs s) (files s) (trace s ++ [ECall d d])).
Proof.
  intros Hc. split_and!.
  - by rewrite generate_eq, Hc.
  - by apply iteration_raise.
  - by rewrite driver_cons, (iteration_raise w d e).
Qed.

(** C7: when the directory of the file does not exist, [savetxt] raises
    [FileNotFoundError], of the class [PathNotFoundError], before it writes:
    it creates no directory and no file.  In the loop, with the directory
    [pcm_matrices] missing, the first iteration whose code is constructed
    stops the run with that exception and nothing is written. *)
Theorem missing_directory_aborts `{Collaborator Env Code}
    (w : Env) (d : Z) (c : Code) (rest : list Z) (s : state) :
  "pcm_matrices" ∉ dirs s ->
  RotatedPlanarCode w d d = Ok c ->
  let s1 := mk_state (dirs s) (files s) (trace s ++ [ECall d d]) in
  let s2 := mk_state (dirs s) (files s) (trace s ++ [ECall d d; EOpen (path d)]) in
  savetxt (path d) (stabilizers c) "%d" "," s1 = (Raise FileNotFoundError, s2) /\
  classify FileNotFoundError = PathNotFoundError /\
  driver w (d :: rest) s = (Raise FileNotFoundError, s2) /\
  dirs s2 = dirs s /\ files s2 = files s.
Proof.
  intros Hdir Hc s1 s2. split_and!; try done.
  - unfold s1, s2. rewrite savetxt_no_dir by by apply path_no_parent.
    cbn [dirs files trace]. by rewrite <- app_assoc.
  - by rewrite driver_cons, (iteration_no_dir w d c).
Qed.

(** C1: when the directory exists and every construction succeeds, the
    top-level program goes through the distances 3, 5, 7, 9, 11, 13, 15 in
    this order; for each it calls the constructor and then opens the file
    [pcm_matrices/distance_<d>_surface_code.csv], and at the end each of
    these seven files holds the text of the stabilizer matrix of its
    distance while every other file is as before. *)
Theorem main_writes_seven_files `{Collaborator Env Code}
    (w : Env) (code_of : Z -> Code) (s : state) :
  "pcm_matrices" ∈ dirs s ->
  (forall d, d ∈ distances ->
     RotatedPlanarCode w d d = Ok (code_of d) /\
     rectangular (stabilizers (code_of d)) /\
     path d ∉ dirs s) ->
  exists s' : state,
    main w s = (Ok tt, s') /\
    dirs s' = dirs s /\
    trace s' = trace s ++
      [ECall 3 3; EOpen "pcm_matrices/distance_3_surface_code.csv";
       ECall 5 5; EOpen "pcm_matrices/distance_5_surface_code.csv";
       ECall 7 7; EOpen "pcm_matrices/distance_7_surface_code.csv";
       ECall 9 9; EOpen "pcm_matrices/distance_9_surface_code.csv";
       ECall 11 11; EOpen "pcm_matrices/distance_11_surface_code.csv";
       ECall 13 13; EOpen "pcm_matrices/distance_13_surface_code.csv";
       ECall 15 15; EOpen "pcm_matrices/distance_15_surface_code.csv"] /\
    (forall d, d ∈ [3; 5; 7; 9; 11; 13; 15] ->
       files s' !! path d = Some (csv_text (stabilizers (code_of d)))) /\
    (forall p, p ∉ path <$> [3; 5; 7; 9; 11; 13; 15] ->
       files s' !! p = files s !! p) /\
    NoDup (path <$> [3; 5; 7; 9; 11; 13; 15]) /\
    length (path <$> [3; 5; 7; 9; 11; 13; 15]) = 7%nat.
Proof.
  intros Hdir Hds.
  destruct (driver_ok w code_of distances s Hdir Hds) as [s' Hrun].
  exists s'. split; [exact Hrun|].
  apply driver_Ok_inv in Hrun as (Hdirs & Htrace & Hother & Hfiles).
  split_and!; try done.
  - intros d Hd. destruct (Hfiles d Hd) as (c & Hc & _ & Hfile).
    destruct (Hds d Hd) as (Hc' & _). rewrite Hc' in Hc.
    by injection Hc as <-.
  - apply NoDup_fmap_2; [intros d1 d2; apply path_inj|].
    by apply (bool_decide_unpack _).
Qed.

(** C6: when the iterations of the distances [pre] have returned and the
    iteration of [d] raises, the loop over [pre ++ d :: post] stops with
    that exception in the state the failing iteration left: the files the
    earlier iterations wrote are there with their content, no file of another
    distance changes, and neither the constructor nor a file is touched for
    a later distance. *)
Theorem driver_fails_fast `{Collaborator Env Code}
    (w : Env) (pre post : list Z) (d : Z) (e : exn) (s s1 s2 : state) :
  driver w pre s = (Ok tt, s1) ->
  iteration w d s1 = (Raise e, s2) ->
  driver w (pre ++ d :: post) s = (Raise e, s2) /\
  (forall d', d' ∈ pre -> d' <> d ->
     exists c, RotatedPlanarCode w d' d' = Ok c /\
               files s2 !! path d' = Some (csv_text (stabilizers c))) /\
  (forall p, p <> path d -> files s2 !! p = files s1 !! p) /\
  (forall d', d' ∈ post -> d' ∉ pre -> d' <> d ->
     files s2 !! path d' = files s !! path d' /\
     (ECall d' d' ∉ trace s -> ECall d' d' ∉ trace s2) /\
     (EOpen (path d') ∉ trace s -> EOpen (path d') ∉ trace s2)).
Proof.
  intros Hpre Hit.
  assert (forall p, p <> path d -> files s2 !! p = files s1 !! p) as Hkeep.
  { destruct (iteration_effect w w d (dirs s1) eq_refl)
      as (r & K & evs & HK & _ & Heff).
    destruct (Heff s1 eq_refl) as [Hs2 _]. rewrite Hit in Hs2.
    injection Hs2 as _ ->. intros p Hp. cbn [files].
    by rewrite lookup_union_r by auto. }
  assert (exists evs, trace s2 = trace s1 ++ evs /\
            forall ev, ev ∈ evs -> ev = ECall d d \/ ev = EOpen (path d))
    as (evs & Htr2 & Hevs).
  { destruct (iteration_effect w w d (dirs s1) eq_refl)
      as (r & K & evs & _ & Hevs & Heff).
    destruct (Heff s1 eq_refl) as [Hs2 _]. rewrite Hit in Hs2.
    injection Hs2 as _ ->. by exists evs. }
  pose proof (driver_Ok_inv w pre s s1 Hpre) as (Hdirs & Htr1 & Hother & Hfiles).
  split_and!.
  - by rewrite driver_app, Hpre, driver_cons, Hit.
  - intros d' Hd' Hne. destruct (Hfiles d' Hd') as (c & Hc & _ & Hfile).
    exists c. split; [done|]. rewrite Hkeep; [done|].
    intros Hpath. by apply path_inj in Hpath.
  - exact Hkeep.
  - intros d' Hpost Hnpre Hne. split_and!.
    + rewrite Hkeep by (intros Hpath; by apply path_inj in Hpath).
      apply Hother. intros (d'' & Hpath & Hd'')%list_elem_of_fmap.
      apply path_inj in Hpath as <-. done.
    + intros Hs. rewrite Htr2, Htr1, !elem_of_app.
      intros [[?|Hin]|Hin]; [done| |].
      * apply list_elem_of_bind in Hin as (d'' & Hin & Hd'').
        apply elem_of_cons in Hin as [[= ->]|Hin]; [done|].
        by apply list_elem_of_singleton in Hin.
      * destruct (Hevs _ Hin) as [[= ->]|[=]]. done.
    + intros Hs. rewrite Htr2, Htr1, !elem_of_app.
      intros [[?|Hin]|Hin]; [done| |].
      * apply list_elem_of_bind in Hin as (d'' & Hin & Hd'').
        apply elem_of_cons in Hin as [[=]|Hin].
        apply list_elem_of_singleton in Hin.
        apply EOpen_path_inj in Hin as <-. done.
      * destruct (Hevs _ Hin) as [[=]|Hpath].
        by apply EOpen_path_inj in Hpath.
Qed.

(** C8: with a constructor whose result depends on its arguments alone, two
    calls of [generate_surface_code_pcm] with the same distance return the
    same matrix (or raise the same exception), whatever the rest of the
    state; two runs of the program from the same state end with the same
    result and the same files; and a second run, started where the first one
    ended, ends with the same result and leaves every file with the content
    the first run gave it. *)
Theorem main_idempotent `{Collaborator Env Code}
    (w1 w2 : Env) (s : state) :
  deterministic ->
  (forall (d : Z) (sa sb : state),
     (generate_surface_code_pcm w1 d sa).1 =
     (generate_surface_code_pcm w2 d sb).1) /\
  (main w2 s).1 = (main w1 s).1 /\
  files (main w2 s).2 = files (main w1 s).2 /\
  (main w2 (main w1 s).2).1 = (main w1 s).1 /\
  files (main w2 (main w1 s).2).2 = files (main w1 s).2 /\
  dirs (main w2 (main w1 s).2).2 = dirs (main w1 s).2.
Proof.
  intros Hdet. split.
  - intros d sa sb. rewrite !generate_eq. cbn [fst]. apply Hdet.
  - destruct (driver_effect w1 w2 distances (dirs s)) as (r & K & evs & _ & _ & Heff);
      [intros d _; apply Hdet|].
    unfold main. destruct (Heff s eq_refl) as [-> ->]. cbn [fst snd].
    destruct (Heff (mk_state (dirs s) (K ∪ files s) (trace s ++ evs)) eq_refl)
      as [_ ->].
    cbn [fst snd dirs files]. split_and!; try done.
    by rewrite (assoc_L (∪)), (idemp_L (∪)).
Qed.

(** * The rotated planar code *)


(** ** Counting *)

Lemma count_app {A} (p : A -> bool) (l1 l2 : list A) :
  count p (l1 ++ l2) = (count p l1 + count p l2)%nat.
Proof. induction l1 as [|x l1 IH]; [done|]. simpl. rewrite IH. lia. Qed.

Lemma count_ext {A} (p q : A -> bool) (l : list A) :
  (forall x, x ∈ l -> p x = q x) -> count p l = count q l.
Proof.
  induction l as [|x l IH]; intros Hpq; [done|]. simpl.
  rewrite (Hpq x), IH; [done | | apply elem_of_cons; by left].
  intros y Hy. apply Hpq, elem_of_cons. by right.
Qed.

Lemma count_all {A} (p : A -> bool) (l : list A) :
  (forall x, x ∈ l -> p x = true) -> count p l = length l.
Proof.
  induction l as [|x l IH]; intros Hp; [done|]. simpl.
  rewrite (Hp x), IH; [done | | apply elem_of_cons; by left].
  intros y Hy. apply Hp, elem_of_cons. by right.
Qed.

Lemma count_none {A} (p : A -> bool) (l : list A) :
  (forall x, x ∈ l -> p x = false) -> count p l = 0%nat.
Proof.
  induction l as [|x l IH]; intros Hp; [done|]. simpl.
  rewrite (Hp x), IH; [done | | apply elem_of_cons; by left].
  intros y Hy. apply Hp, elem_of_cons. by right.
Qed.

Lemma sum_list_with_const {A} (f : A -> nat) (n : nat) (l : list A) :
  (forall x, x ∈ l -> f x = n) -> sum_list_with f l = (length l * n)%nat.
Proof.
  induction l as [|x l IH]; intros Hf; [done|]. simpl.
  rewrite (Hf x), IH; [done | | apply elem_of_cons; by left].
  intros y Hy. apply Hf, elem_of_cons. by right.
Qed.

(** Among [2n] consecutive integers that start at an even one, [n] are odd
    and [n] are even. *)
Lemma count_parity (r : Z) (a : Z) (n : nat) :
  r = 0 \/ r = 1 ->
  count (fun x => x mod 2 =? r) (seqZ (2 * a) (2 * Z.of_nat n)) = n.
Proof.
  intros Hr. induction n as [|n IH]; [done|].
  replace (2 * Z.of_nat (S n)) with (2 * Z.of_nat n + 2) by lia.
  rewrite seqZ_app, count_app, IH by lia.
  rewrite (seqZ_cons _ 2), (seqZ_cons _ (Z.pred 2)), seqZ_nil by lia.
  simpl.
  destruct (Z.eqb_spec ((2 * a + 2 * Z.of_nat n) mod 2) r);
    destruct (Z.eqb_spec (Z.succ (2 * a + 2 * Z.of_nat n) mod 2) r); zmod.
Qed.

(** ** Pauli operators stay in binary form *)

Lemma flip_bit (v : Z) : bit v -> bit (qecsim.flip v).
Proof. intros [->| ->]; [by right | by left]. Qed.

Lemma alter_flip_bits (i : nat) (l : list Z) :
  Forall bit l -> Forall bit (alter qecsim.flip i l).
Proof.
  intros Hl. revert i. induction Hl as [|v l Hv Hl IH]; intros [|i]; simpl.
  - apply Forall_nil_2.
  - apply Forall_nil_2.
  - apply Forall_cons_2; [by apply flip_bit | done].
  - apply Forall_cons_2; [done | apply IH].
Qed.

Lemma site_wf (n : nat) (c : qecsim.code) (op : qecsim.operator)
    (index : Z * Z) (p : qecsim.pauli) :
  pauli_wf n p -> pauli_wf n (qecsim.site c op index p).
Proof.
  intros (Hx & Hz & Hbx & Hbz). unfold qecsim.site.
  destruct (qecsim.is_in_site_bounds c index); [|done].
  destruct op; unfold pauli_wf; cbn [qecsim.p_xs qecsim.p_zs];
    rewrite ?length_alter; auto using alter_flip_bits.
Qed.

Lemma plaquette_wf (n : nat) (c : qecsim.code) (index : Z * Z) (p : qecsim.pauli) :
  pauli_wf n p -> pauli_wf n (qecsim.plaquette c index p).
Proof.
  intros Hp. unfold qecsim.plaquette. destruct index as [x y].
  destruct (qecsim.is_in_plaquette_bounds c (x, y)); [|done].
  by repeat apply site_wf.
Qed.

Lemma new_pauli_wf (c : qecsim.code) :
  pauli_wf (qecsim.n_qubits c) (qecsim.new_pauli c).
Proof.
  unfold pauli_wf, qecsim.new_pauli. cbn [qecsim.p_xs qecsim.p_zs].
  rewrite length_replicate. split_and!; try done.
  all: apply Forall_replicate; by left.
Qed.

Lemma to_bsf_wf (n : nat) (p : qecsim.pauli) :
  pauli_wf n p ->
  length (qecsim.to_bsf p) = (2 * n)%nat /\ Forall bit (qecsim.to_bsf p).
Proof.
  intros (Hx & Hz & Hbx & Hbz). unfold qecsim.to_bsf.
  rewrite length_app, Forall_app. split; [lia | done].
Qed.

(** Every stabilizer is a row of [2n] bits, for [n] the number of qubits. *)
Lemma stabilizers_rows (c : qecsim.code) :
  Forall (fun row => length row = (2 * qecsim.n_qubits c)%nat /\ Forall bit row)
    (qecsim.code_stabilizers c).
Proof.
  unfold qecsim.code_stabilizers. apply Forall_fmap, Forall_forall.
  intros index _. apply to_bsf_wf, plaquette_wf, new_pauli_wf.
Qed.

Lemma stabilizers_length (c : qecsim.code) :
  length (qecsim.code_stabilizers c) = length (qecsim.plaquette_indices c).
Proof. unfold qecsim.code_stabilizers. apply length_map. Qed.

(** ** The number of plaquettes *)

(** The two loops keep every index in bounds exactly once. *)
Lemma plaquette_indices_length (c : qecsim.code) :
  length (qecsim.plaquette_indices c) =
  sum_list_with
    (fun y => count (fun x => qecsim.is_in_plaquette_bounds c (x, y))
                (qecsim.range (-1) ((qecsim.site_bounds c).1 + 2)))
    (qecsim.range (-1) ((qecsim.site_bounds c).2 + 2)).
Proof.
  unfold qecsim.plaquette_indices.
  destruct (qecsim.site_bounds c) as [max_site_x max_site_y]. cbn [fst snd].
  generalize (qecsim.range (-1) (max_site_x + 2)) as xs.
  generalize (qecsim.range (-1) (max_site_y + 2)) as ys.
  intros ys xs.
  set (inner := fun y => foldl (fun '(zs, xs0) x =>
          let index := (x, y) in
          if qecsim.is_in_plaquette_bounds c index
          then if qecsim.is_z_plaquette index
               then (zs ++ [index], xs0) else (zs, xs0 ++ [index])
          else (zs, xs0))).
  assert (forall y l (acc : list (Z * Z) * list (Z * Z)),
            (length (inner y acc l).1 + length (inner y acc l).2 =
             length acc.1 + length acc.2 +
             count (fun x => qecsim.is_in_plaquette_bounds c (x, y)) l)%nat)
    as Hinner.
  { intros y l. induction l as [|x l IH]; intros [zs xs0]; [simpl; lia|].
    unfold inner in *. cbn [foldl count].
    destruct (qecsim.is_in_plaquette_bounds c (x, y)).
    - destruct (qecsim.is_z_plaquette (x, y)); rewrite IH;
        cbn [fst snd]; rewrite length_app; simpl; lia.
    - rewrite IH. simpl. lia. }
  assert (forall l (acc : list (Z * Z) * list (Z * Z)),
            let r := foldl (fun acc y => inner y acc xs) acc l in
            (length r.1 + length r.2 =
             length acc.1 + length acc.2 +
             sum_list_with
               (fun y => count (fun x => qecsim.is_in_plaquette_bounds c (x, y)) xs)
               l)%nat) as Houter.
  { intros l. induction l as [|y l IH]; intros acc; [simpl; lia|].
    cbn [foldl sum_list_with]. cbn zeta in IH. rewrite IH, Hinner. lia. }
  specialize (Houter ys ([], [])). clear Hinner.
  subst inner. cbn beta zeta in Houter. revert Houter.
  destruct (foldl _ ([], []) ys) as [zs xs0].
  rewrite length_app. cbn [fst snd length]. lia.
Qed.

(** ** The constructor *)

(** The constructor rejects exactly the sizes below the minimum, with
    [ValueError]; the parity of the size plays no role. *)
Lemma init_small (rows columns : Z) :
  rows < 3 \/ columns < 3 -> qecsim.init rows columns = Raise ValueError.
Proof.
  intros Hsmall. unfold qecsim.init, qecsim.MIN_SIZE.
  destruct (Z.ltb_spec rows 3); [done|].
  destruct (Z.ltb_spec columns 3); [done | lia].
Qed.

Lemma init_large (rows columns : Z) :
  3 <= rows -> 3 <= columns ->
  qecsim.init rows columns = Ok (qecsim.mk_code (rows, columns)).
Proof.
  intros Hr Hc. unfold qecsim.init, qecsim.MIN_SIZE.
  destruct (Z.ltb_spec rows 3); [lia|].
  destruct (Z.ltb_spec columns 3); [lia | done].
Qed.

Lemma range_eq (lo hi : Z) : qecsim.range lo hi = seqZ lo (hi - lo).
Proof. done. Qed.

(** The plaquettes in bounds of a lattice with an odd number of rows and
    columns. *)
Lemma in_plaquette_bounds_odd (d x y : Z) :
  d mod 2 = 1 ->
  qecsim.is_in_plaquette_bounds (qecsim.mk_code (d, d)) (x, y) = true <->
  (if decide (y mod 2 = 0) then -1 <= x <= d - 2 else 0 <= x <= d - 1) /\
  (if decide (x mod 2 = 0) then 0 <= y <= d - 1 else -1 <= y <= d - 2).
Proof.
  intros Hd. unfold qecsim.is_in_plaquette_bounds, qecsim.site_bounds.
  cbn [qecsim.size]. rewrite !andb_true_iff, !Z.leb_le.
  assert ((d - 1) mod 2 = 0) as Hd1 by zmod.
  rewrite Hd1. cbn [Z.eqb].
  destruct (Z.eqb_spec (y mod 2) 0); destruct (Z.eqb_spec (x mod 2) 0);
    repeat case_decide; try done; lia.
Qed.

Lemma in_plaquette_bounds_odd_false (d x y : Z) :
  d mod 2 = 1 ->
  ~ ((if decide (y mod 2 = 0) then -1 <= x <= d - 2 else 0 <= x <= d - 1) /\
     (if decide (x mod 2 = 0) then 0 <= y <= d - 1 else -1 <= y <= d - 2)) ->
  qecsim.is_in_plaquette_bounds (qecsim.mk_code (d, d)) (x, y) = false.
Proof.
  intros Hd Hn. apply not_true_is_false. by rewrite in_plaquette_bounds_odd.
Qed.

Section OddLattice.
Variable k : nat.
Hypothesis Hk : (1 <= k)%nat.

Let d : Z := 2 * Z.of_nat k + 1.
Let c : qecsim.code := qecsim.mk_code (d, d).
Let inb (y x : Z) : bool := qecsim.is_in_plaquette_bounds c (x, y).

Lemma d_odd : d mod 2 = 1.
Proof. subst d. zmod. Qed.

Lemma xs_split :
  seqZ (-1) (d + 2) = seqZ (-1) 1 ++ seqZ 0 (d - 1) ++ seqZ (d - 1) 2.
Proof.
  replace (d + 2) with (1 + ((d - 1) + 2)) by lia.
  rewrite seqZ_app by (subst d; lia). f_equal.
  rewrite seqZ_app by (subst d; lia). done.
Qed.

(** A row of plaquettes inside the lattice has one plaquette per column. *)
Lemma row_inside (y : Z) :
  0 <= y <= d - 2 -> count (inb y) (seqZ (-1) (d + 2)) = Z.to_nat d.
Proof.
  intros Hy. pose proof d_odd as Hd.
  destruct (decide (y mod 2 = 0)) as [Hev|Hodd].
  - assert (seqZ (-1) (d + 2) = seqZ (-1) d ++ seqZ (d - 1) 2) as ->.
    { rewrite (seqZ_app (-1) d 2) by (subst d; lia). f_equal. f_equal. lia. }
    rewrite count_app, count_all, count_none, length_seqZ; [lia| |].
    + intros x Hx%elem_of_seqZ. apply in_plaquette_bounds_odd_false; [done|].
      rewrite decide_True by done. lia.
    + intros x Hx%elem_of_seqZ. apply in_plaquette_bounds_odd; [done|].
      rewrite decide_True by done. case_decide; lia.
  - assert (seqZ (-1) (d + 2) = seqZ (-1) 1 ++ seqZ 0 d ++ seqZ d 1) as ->.
    { replace (d + 2) with (1 + (d + 1)) by lia.
      rewrite seqZ_app by (subst d; lia). f_equal.
      rewrite seqZ_app by (subst d; lia). done. }
    rewrite !count_app, (count_none _ (seqZ (-1) 1)), count_all,
      count_none, length_seqZ; [lia| | |].
    + intros x Hx%elem_of_seqZ. apply in_plaquette_bounds_odd_false; [done|].
      rewrite decide_False by done. lia.
    + intros x Hx%elem_of_seqZ. apply in_plaquette_bounds_odd; [done|].
      rewrite decide_False by done. case_decide; lia.
    + intros x Hx%elem_of_seqZ. apply in_plaquette_bounds_odd_false; [done|].
      rewrite decide_False by done. lia.
Qed.

(** The rows below and above the lattice have a plaquette on every
    second column. *)
Lemma row_boundary (y r : Z) :
  (y = -1 /\ r = 1) \/ (y = d - 1 /\ r = 0) ->
  count (inb y) (seqZ (-1) (d + 2)) = k.
Proof.
  intros Hy. pose proof d_odd as Hd.
  rewrite xs_split, !count_app.
  rewrite (count_none _ (seqZ (-1) 1)), (count_none _ (seqZ (d - 1) 2)).
  - rewrite (count_ext _ (fun x => x mod 2 =? r)).
    + replace (d - 1) with (2 * Z.of_nat k) by (subst d; lia).
      change 0 with (2 * 0) at 1. rewrite count_parity; [lia|].
      destruct Hy as [[_ ->]|[_ ->]]; auto.
    + intros x Hx%elem_of_seqZ. apply eq_iff_eq_true.
      unfold inb, c. rewrite in_plaquette_bounds_odd, Z.eqb_eq by done.
      destruct Hy as [[-> ->]|[-> ->]]; repeat case_decide; zmod.
  - intros x Hx%elem_of_seqZ. apply in_plaquette_bounds_odd_false; [done|].
    destruct Hy as [[-> ->]|[-> ->]]; repeat case_decide; zmod.
  - intros x Hx%elem_of_seqZ. apply in_plaquette_bounds_odd_false; [done|].
    destruct Hy as [[-> ->]|[-> ->]]; repeat case_decide; zmod.
Qed.

Lemma row_outside : count (inb d) (seqZ (-1) (d + 2)) = 0%nat.
Proof.
  pose proof d_odd as Hd. apply count_none.
  intros x Hx%elem_of_seqZ. apply in_plaquette_bounds_odd_false; [done|].
  repeat case_decide; zmod.
Qed.

(** A lattice of odd size d has d * d - 1 plaquettes. *)
Lemma plaquette_count_odd :
  Z.of_nat (length (qecsim.plaquette_indices c)) = d * d - 1.
Proof.
  rewrite plaquette_indices_length. unfold c, qecsim.site_bounds.
  cbn [qecsim.size fst snd]. rewrite !range_eq.
  replace (d - 1 + 2 - -1) with (d + 2) by lia.
  assert (seqZ (-1) (d + 2) =
          seqZ (-1) 1 ++ seqZ 0 (d - 1) ++ seqZ (d - 1) 1 ++ seqZ d 1) as Hys.
  { rewrite xs_split. f_equal. f_equal.
    replace 2 with (1 + 1) by lia. rewrite seqZ_app by lia.
    f_equal. f_equal. lia. }
  rewrite Hys at 1. rewrite !sum_list_with_app.
  rewrite (sum_list_with_const _ (Z.to_nat d) (seqZ 0 (d - 1))).
  - rewrite length_seqZ. cbn [seqZ sum_list_with].
    change (seqZ (-1) 1) with [-1]. change (seqZ d 1) with [d].
    change (seqZ (d - 1) 1) with [d - 1]. cbn [sum_list_with].
    fold c. fold (inb (-1)). fold (inb (d - 1)). fold (inb d).
    rewrite (row_boundary (-1) 1), (row_boundary (d - 1) 0), row_outside by auto.
    subst d. nia.
  - intros y Hy%elem_of_seqZ. apply row_inside. lia.
Qed.
End OddLattice.

(** The matrix of the code of an odd distance. *)
Lemma stabilizers_odd (d : Z) :
  3 <= d -> d mod 2 = 1 ->
  qecsim.init d d = Ok (qecsim.mk_code (d, d)) /\
  Z.of_nat (length (qecsim.code_stabilizers (qecsim.mk_code (d, d)))) = d * d - 1 /\
  Forall (fun row => Z.of_nat (length row) = 2 * (d * d) /\ Forall bit row)
    (qecsim.code_stabilizers (qecsim.mk_code (d, d))).
Proof.
  intros Hd3 Hodd. split_and!.
  - unfold qecsim.init, qecsim.MIN_SIZE.
    by rewrite (proj2 (Z.ltb_ge d 3)) by lia.
  - rewrite stabilizers_length.
    replace d with (2 * Z.of_nat (Z.to_nat ((d - 1) / 2)) + 1) by zmod.
    apply plaquette_count_odd. zmod.
  - eapply Forall_impl; [apply stabilizers_rows|].
    intros row [Hlen Hbits]. split; [|done]. rewrite Hlen.
    unfold qecsim.n_qubits, qecsim.n_k_d. cbn [qecsim.size fst]. nia.
Qed.

(** Every stabilizer is the X part of an operator followed by its Z part,
    one bit per qubit in each. *)
Lemma stabilizers_bsf (c : qecsim.code) :
  Forall (fun row => exists xs zs : list Z,
            row = xs ++ zs /\
            length xs = qecsim.n_qubits c /\ length zs = qecsim.n_qubits c)
    (qecsim.code_stabilizers c).
Proof.
  unfold qecsim.code_stabilizers. apply Forall_fmap, Forall_forall.
  intros index _. cbn [compose].
  destruct (plaquette_wf _ c index _ (new_pauli_wf c)) as (Hx & Hz & _).
  by eexists _, _.
Qed.

(** * The claims about the matrices *)

(** C4: for distance 3 the construction succeeds and the matrix is not
    empty: it has 8 rows, one less than the 9 qubits of the code, and every
    row has 18 entries, the X bit of each of the 9 qubits followed by the Z
    bit of each.  For every distance d >= 3 the rows have 2 * d * d
    entries. *)
Theorem distance_3_matrix (s : state) :
  exists X : matrix,
    (generate_surface_code_pcm tt 3 s).1 = Ok X /\
    X <> [] /\
    length X = 8%nat /\
    qecsim.n_k_d (qecsim.mk_code (3, 3)) = (9, 1, 3) /\
    Forall (fun row => length row = 18%nat) X /\
    Forall (fun row => exists xs zs : list Z,
              row = xs ++ zs /\ length xs = 9%nat /\ length zs = 9%nat) X /\
    forall d : Z, 3 <= d ->
      exists Xd : matrix,
        (generate_surface_code_pcm tt d s).1 = Ok Xd /\
        Forall (fun row => Z.of_nat (length row) = 2 * (d * d)) Xd.
Proof.
  exists (qecsim.code_stabilizers (qecsim.mk_code (3, 3))).
  split_and!; try done.
  - by apply (bool_decide_unpack _).
  - apply (stabilizers_bsf (qecsim.mk_code (3, 3))).
  - intros d Hd. exists (qecsim.code_stabilizers (qecsim.mk_code (d, d))).
    split.
    + rewrite generate_eq. cbn [fst RotatedPlanarCode qecsim_collaborator].
      unfold qecsim.init, qecsim.MIN_SIZE.
      by rewrite (proj2 (Z.ltb_ge d 3)) by lia.
    + eapply Forall_impl; [apply stabilizers_rows|].
      intros row [Hlen _]. rewrite Hlen.
      unfold qecsim.n_qubits, qecsim.n_k_d. cbn [qecsim.size fst]. nia.
Qed.

(** C10: for every odd distance d >= 3 the matrix that
    [generate_surface_code_pcm(d)] returns is rectangular, its entries are 0
    or 1, it has d * d - 1 rows, and it has 2 * d * d columns: two for each
    of the d * d qubits. *)
Theorem odd_distance_matrix_shape (d : Z) (s : state) :
  3 <= d -> d mod 2 = 1 ->
  exists X : matrix,
    (generate_surface_code_pcm tt d s).1 = Ok X /\
    rectangular X /\
    binary X /\
    Z.of_nat (length X) = d * d - 1 /\
    Z.of_nat (ncol X) = 2 * (d * d) /\
    Forall (fun row => Z.of_nat (length row) = 2 * (d * d)) X /\
    qecsim.n_k_d (qecsim.mk_code (d, d)) = (d * d, 1, d).
Proof.
  intros Hd3 Hodd.
  destruct (stabilizers_odd d Hd3 Hodd) as (Hinit & Hrows & Hcols).
  exists (qecsim.code_stabilizers (qecsim.mk_code (d, d))).
  assert (Z.of_nat (ncol (qecsim.code_stabilizers (qecsim.mk_code (d, d)))) =
          2 * (d * d)) as Hncol.
  { destruct (qecsim.code_stabilizers (qecsim.mk_code (d, d))) as [|row X].
    - simpl in Hrows. nia.
    - apply Forall_cons_1 in Hcols as [[Hlen _] _]. done. }
  split_and!.
  - rewrite generate_eq. cbn [fst RotatedPlanarCode qecsim_collaborator].
    by rewrite Hinit.
  - eapply Forall_impl; [exact Hcols|]. intros row [Hlen _]. cbn beta in *. lia.
  - eapply Forall_impl; [exact Hcols|]. by intros row [_ Hbits].
  - done.
  - done.
  - eapply Forall_impl; [exact Hcols|]. by intros row [Hlen _].
  - unfold qecsim.n_k_d. cbn [qecsim.size]. by rewrite Z.min_id.
Qed.

(** * The theorems at concrete inputs *)


Lemma savetxt_format_witness :
  (parent "out/m.csv" = "" \/ parent "out/m.csv" ∈ dirs (mk_state {["out"]} ∅ [])) /\
  ("out/m.csv" ∉ dirs (mk_state {["out"]} ∅ [])) /\
  rectangular [[1; 0; 12]; [0; 7; 105]] /\
  nonnegative [[1; 0; 12]; [0; 7; 105]] /\
  exists (s' : state) (text : string),
    savetxt "out/m.csv" [[1; 0; 12]; [0; 7; 105]] "%d" ","
      (mk_state {["out"]} ∅ []) = (Ok tt, s') /\
    files s' !! "out/m.csv" = Some text /\
    text = csv_text [[1; 0; 12]; [0; 7; 105]] /\
    splitlines text = ["1,0,12"; "0,7,105"] /\
    Forall csv_char (chars text) /\
    Forall (fun line => n_fields line = 3%nat) (splitlines text).
Proof.
  assert (parent "out/m.csv" = "" \/
          parent "out/m.csv" ∈ dirs (mk_state {["out"]} ∅ [])) as H1
    by (right; by_computation).
  assert ("out/m.csv" ∉ dirs (mk_state {["out"]} ∅ [])) as H2 by by_computation.
  assert (rectangular [[1; 0; 12]; [0; 7; 105]]) as H3
    by (unfold rectangular; by_computation).
  assert (nonnegative [[1; 0; 12]; [0; 7; 105]]) as H4
    by (unfold nonnegative; by_computation).
  split_and!; try assumption.
  destruct (savetxt_format "out/m.csv" [[1; 0; 12]; [0; 7; 105]]
              (mk_state {["out"]} ∅ []) H1 H2 H3 H4)
    as (s' & text & Hsave & Hfile & Htext & Hlines & _ & Hchars & Hfields).
  exists s', text. split_and!; assumption.
Defined.

Lemma savetxt_round_trip_witness :
  (parent "out/m.csv" = "" \/ parent "out/m.csv" ∈ dirs (mk_state {["out"]} ∅ [])) /\
  ("out/m.csv" ∉ dirs (mk_state {["out"]} ∅ [])) /\
  rectangular [[-1; 20]; [3; -400]] /\
  exists (s' : state) (text : string),
    savetxt "out/m.csv" [[-1; 20]; [3; -400]] "%d" ","
      (mk_state {["out"]} ∅ []) = (Ok tt, s') /\
    files s' !! "out/m.csv" = Some text /\
    parse_csv text = Ok [[-1; 20]; [3; -400]].
Proof.
  assert (parent "out/m.csv" = "" \/
          parent "out/m.csv" ∈ dirs (mk_state {["out"]} ∅ [])) as H1
    by (right; by_computation).
  assert ("out/m.csv" ∉ dirs (mk_state {["out"]} ∅ [])) as H2 by by_computation.
  assert (rectangular [[-1; 20]; [3; -400]]) as H3
    by (unfold rectangular; by_computation).
  split_and!; try assumption.
  exact (savetxt_round_trip "out/m.csv" [[-1; 20]; [3; -400]]
           (mk_state {["out"]} ∅ []) H1 H2 H3).
Defined.

Lemma rejected_distance_propagates_witness :
  (forall d : Z, d < 3 -> RotatedPlanarCode tt d d = Raise ValueError) /\
  classify ValueError = InvalidParameterError /\
  (forall (d : Z) (rest : list Z) (s : state), d < 3 ->
     driver tt (d :: rest) s =
       (Raise ValueError, mk_state (dirs s) (files s) (trace s ++ [ECall d d]))) /\
  driver tt [2; 3; 5] prepared =
    (Raise ValueError, mk_state {["pcm_matrices"]} ∅ [ECall 2 2]) /\
  driver tt [0] prepared =
    (Raise ValueError, mk_state {["pcm_matrices"]} ∅ [ECall 0 0]) /\
  driver tt [-1] prepared =
    (Raise ValueError, mk_state {["pcm_matrices"]} ∅ [ECall (-1) (-1)]).
Proof.
  assert (forall d : Z, d < 3 -> RotatedPlanarCode tt d d = Raise ValueError)
    as Hreject by (intros d Hd; apply init_small; by left).
  pose proof (fun d rest s (Hd : d < 3) =>
                proj2 (proj2 (rejected_distance_propagates tt d ValueError rest s
                                (Hreject d Hd)))) as Hall.
  pose proof (rejected_distance_propagates tt 2 ValueError [3; 5] prepared
                eq_refl) as (_ & _ & Htwo).
  pose proof (rejected_distance_propagates tt 0 ValueError [] prepared
                eq_refl) as (_ & _ & Hzero).
  pose proof (rejected_distance_propagates tt (-1) ValueError [] prepared
                eq_refl) as (_ & _ & Hneg).
  split_and!; [exact Hreject | reflexivity | exact Hall
              | exact Htwo | exact Hzero | exact Hneg].
Defined.

(** The claim as the specification words it fails at the even distance 4:
    the specification counts it as invalid, the constructor accepts it, and
    the loop writes its file. *)
Lemma even_distance_accepted :
  invalid_distance 4 /\
  RotatedPlanarCode tt 4 4 = Ok (code_of 4) /\
  (driver tt [4] prepared).1 = Ok tt /\
  is_Some (files (driver tt [4] prepared).2
             !! "pcm_matrices/distance_4_surface_code.csv") /\
  ~ (forall d : Z, invalid_distance d ->
       exists e, RotatedPlanarCode tt d d = Raise e).
Proof.
  split_and!.
  - right; left. reflexivity.
  - reflexivity.
  - vm_compute. reflexivity.
  - apply (bool_decide_unpack _). vm_compute. reflexivity.
  - intros Hall. destruct (Hall 4) as [e He]; [right; left; reflexivity|].
    discriminate He.
Qed.

Lemma missing_directory_aborts_witness :
  ("pcm_matrices" ∉ dirs fresh_checkout) /\
  RotatedPlanarCode tt 3 3 = Ok (code_of 3) /\
  main tt fresh_checkout =
    (Raise FileNotFoundError,
     mk_state ∅ ∅ [ECall 3 3; EOpen "pcm_matrices/distance_3_surface_code.csv"]) /\
  classify FileNotFoundError = PathNotFoundError.
Proof.
  assert ("pcm_matrices" ∉ dirs fresh_checkout) as H1 by by_computation.
  pose proof (missing_directory_aborts tt 3 (code_of 3) [5; 7; 9; 11; 13; 15]
                fresh_checkout H1 eq_refl) as (_ & Hclass & Hmain & _).
  split_and!; [exact H1 | reflexivity | exact Hmain | exact Hclass].
Defined.

Lemma main_writes_seven_files_witness :
  "pcm_matrices" ∈ dirs prepared /\
  (forall d, d ∈ distances ->
     RotatedPlanarCode tt d d = Ok (code_of d) /\
     rectangular (stabilizers (code_of d)) /\
     path d ∉ dirs prepared) /\
  exists s' : state,
    main tt prepared = (Ok tt, s') /\
    dirs s' = dirs prepared /\
    trace s' =
      [ECall 3 3; EOpen "pcm_matrices/distance_3_surface_code.csv";
       ECall 5 5; EOpen "pcm_matrices/distance_5_surface_code.csv";
       ECall 7 7; EOpen "pcm_matrices/distance_7_surface_code.csv";
       ECall 9 9; EOpen "pcm_matrices/distance_9_surface_code.csv";
       ECall 11 11; EOpen "pcm_matrices/distance_11_surface_code.csv";
       ECall 13 13; EOpen "pcm_matrices/distance_13_surface_code.csv";
       ECall 15 15; EOpen "pcm_matrices/distance_15_surface_code.csv"] /\
    (forall d, d ∈ [3; 5; 7; 9; 11; 13; 15] ->
       files s' !! path d = Some (csv_text (stabilizers (code_of d)))) /\
    (forall p, p ∉ path <$> [3; 5; 7; 9; 11; 13; 15] -> files s' !! p = None).
Proof.
  assert ("pcm_matrices" ∈ dirs prepared) as H1 by by_computation.
  assert (forall d, d ∈ distances ->
            RotatedPlanarCode tt d d = Ok (code_of d) /\
            rectangular (stabilizers (code_of d)) /\
            path d ∉ dirs prepared) as H2.
  { intros d Hd. unfold distances in Hd.
    repeat (apply elem_of_cons in Hd as [->|Hd]);
      [| | | | | | | by apply elem_of_nil in Hd].
    all: split_and!;
      [reflexivity | unfold rectangular; by_computation | by_computation]. }
  split; [exact H1|]. split; [exact H2|].
  destruct (main_writes_seven_files tt code_of prepared H1 H2)
    as (s' & Hmain & Hdirs & Htrace & Hfiles & Hother & _).
  exists s'. split_and!; assumption.
Defined.

Lemma driver_fails_fast_witness :
  let s1 := (driver tt [3; 5] blocked).2 in
  let s2 := (iteration tt 7 s1).2 in
  driver tt [3; 5] blocked = (Ok tt, s1) /\
  iteration tt 7 s1 = (Raise IsADirectoryError, s2) /\
  main tt blocked = (Raise IsADirectoryError, s2) /\
  (forall d', d' ∈ [3; 5] -> d' <> 7 ->
     exists c, RotatedPlanarCode tt d' d' = Ok c /\
               files s2 !! path d' = Some (csv_text (stabilizers c))) /\
  (forall d', d' ∈ [9; 11; 13; 15] -> d' ∉ [3; 5] -> d' <> 7 ->
     files s2 !! path d' = files blocked !! path d' /\
     (ECall d' d' ∉ trace blocked -> ECall d' d' ∉ trace s2) /\
     (EOpen (path d') ∉ trace blocked -> EOpen (path d') ∉ trace s2)).
Proof.
  intros s1 s2.
  assert (driver tt [3; 5] blocked = (Ok tt, s1)) as H1
    by (vm_compute; reflexivity).
  assert (iteration tt 7 s1 = (Raise IsADirectoryError, s2)) as H2
    by (vm_compute; reflexivity).
  destruct (driver_fails_fast tt [3; 5] [9; 11; 13; 15] 7 IsADirectoryError
              blocked s1 s2 H1 H2) as (Hrun & Hearlier & _ & Hlater).
  split_and!; [exact H1 | exact H2 | exact Hrun | exact Hearlier | exact Hlater].
Defined.

Lemma main_idempotent_witness :
  @deterministic unit qecsim.code qecsim_collaborator /\
  (main tt (main tt prepared).2).1 = (main tt prepared).1 /\
  files (main tt (main tt prepared).2).2 = files (main tt prepared).2 /\
  dirs (main tt (main tt prepared).2).2 = dirs (main tt prepared).2.
Proof.
  assert (@deterministic unit qecsim.code qecsim_collaborator) as Hdet
    by (intros w1 w2 rows columns; reflexivity).
  destruct (main_idempotent tt tt prepared Hdet)
    as (_ & _ & _ & Hresult & Hfiles & Hdirs).
  split_and!; [exact Hdet | exact Hresult | exact Hfiles | exact Hdirs].
Defined.

Lemma odd_distance_matrix_shape_witness :
  3 <= 5 /\ 5 mod 2 = 1 /\
  exists X : matrix,
    (generate_surface_code_pcm tt 5 prepared).1 = Ok X /\
    rectangular X /\
    binary X /\
    Z.of_nat (length X) = 24 /\
    Z.of_nat (ncol X) = 50.
Proof.
  assert (3 <= 5) as H1 by lia.
  assert (5 mod 2 = 1) as H2 by reflexivity.
  split; [exact H1|]. split; [exact H2|].
  destruct (odd_distance_matrix_shape 5 prepared H1 H2)
    as (X & Hgen & Hrect & Hbin & Hrows & Hcols & _).
  exists X. split_and!; assumption.
Defined.

(** * Further properties of the script *)

(** One iteration records the call of the constructor and, unless the
    constructor raised, the opening of the file. *)
Lemma iteration_trace `{Collaborator Env Code} (w : Env) (d : Z) (s : state) :
  (trace (iteration w d s).2 = trace s ++ [ECall d d] /\
   exists e, (iteration w d s).1 = Raise e) \/
  trace (iteration w d s).2 = trace s ++ [ECall d d; EOpen (path d)].
Proof.
  rewrite iteration_eq.
  destruct (RotatedPlanarCode w d d) as [c|e]; cbn [result_map].
  - right.
    destruct (savetxt_effect (path d) (stabilizers c) "%d" "," (dirs s))
      as (r & o & Heff).
    rewrite Heff by done. cbn [snd trace]. by rewrite <- app_assoc.
  - left. split; [done | by exists e].
Qed.

(** The conditions under which a run returns. *)
Lemma driver_Ok_conditions `{Collaborator Env Code}
    (w : Env) (ds : list Z) (s : state) :
  (exists s' : state, driver w ds s = (Ok tt, s')) <->
  (forall d, d ∈ ds ->
     exists c : Code,
       RotatedPlanarCode w d d = Ok c /\
       rectangular (stabilizers c) /\
       "pcm_matrices" ∈ dirs s /\
       path d ∉ dirs s).
Proof.
  revert s. induction ds as [|d ds IH]; intros s.
  - split; [by intros _ d ?%elem_of_nil | intros _; by exists s].
  - rewrite driver_cons. split.
    + intros [s' Hrun].
      destruct (iteration w d s) as [[[]|e] s1] eqn:Hit; [|done].
      apply iteration_Ok_inv in Hit as (c & Hc & HX & Hpar & Hp & ->).
      assert ("pcm_matrices" ∈ dirs s) as Hdir.
      { rewrite path_parent in Hpar. by destruct Hpar. }
      intros d' [->|Hd']%elem_of_cons; [by exists c|].
      by apply (proj1 (IH _) (ex_intro _ s' Hrun)).
    + intros Hds.
      destruct (Hds d) as (c & Hc & HX & Hdir & Hp); [apply elem_of_cons; by left|].
      rewrite (iteration_ok w d c) by done.
      apply IH. intros d' Hd'. apply Hds, elem_of_cons. by right.
Qed.

(** X1: the file names of two distances are the same only when the
    distances are: no two distances are written to one file. *)
Theorem output_paths_distinct (d1 d2 : Z) : path d1 = path d2 <-> d1 = d2.
Proof. split; [apply path_inj | by intros ->]. Qed.

(** X2: for every integer, negative ones included, the file of the distance
    lies directly in the directory [pcm_matrices]: its name has a single
    slash and the part before it is [pcm_matrices]. *)
Theorem output_path_directory (d : Z) :
  parent (path d) = "pcm_matrices" /\ count_char "/"%char (path d) = 1%nat.
Proof.
  split; [apply path_parent|].
  unfold path. rewrite !count_char_app.
  rewrite (count_char_0 _ (fmt_d d))
    by (apply fmt_d_no; apply slash_not_int_char).
  done.
Qed.

(** X3: whatever happens in a run over any distances, it creates and removes
    no directory, it removes no file, it leaves every file that is not the
    file of one of its distances as it was, and it only adds to the record of
    calls. *)
Theorem driver_frame `{Collaborator Env Code} (w : Env) (ds : list Z) (s : state) :
  dirs (driver w ds s).2 = dirs s /\
  dom (files s) ⊆ dom (files (driver w ds s).2) /\
  (forall p, p ∉ path <$> ds ->
     files (driver w ds s).2 !! p = files s !! p) /\
  trace s `prefix_of` trace (driver w ds s).2.
Proof.
  destruct (driver_effect w w ds (dirs s) (fun _ _ => eq_refl))
    as (r & K & evs & HK & _ & Heff).
  rewrite (proj1 (Heff s eq_refl)).
  cbn [snd dirs files trace]. split_and!.
  - done.
  - rewrite dom_union_L. apply union_subseteq_r.
  - intros p Hp. by rewrite lookup_union_r by auto.
  - by exists evs.
Qed.

(** X4: the calls a run makes are an initial segment of the full schedule
    (for each distance in turn, the constructor and then the file): nothing
    is retried, skipped or reordered; and a run that returns has made all of
    them. *)
Theorem driver_trace_prefix `{Collaborator Env Code}
    (w : Env) (ds : list Z) (s : state) :
  exists evs : list event,
    trace (driver w ds s).2 = trace s ++ evs /\
    evs `prefix_of` (ds ≫= fun d => [ECall d d; EOpen (path d)]) /\
    ((driver w ds s).1 = Ok tt ->
     evs = ds ≫= fun d => [ECall d d; EOpen (path d)]).
Proof.
  revert s. induction ds as [|d ds IH]; intros s.
  - exists []. by rewrite app_nil_r.
  - rewrite driver_cons.
    pose proof (iteration_trace w d s) as Htr.
    destruct (iteration w d s) as [[[]|e] s1] eqn:Hit; cbn [fst snd] in *.
    + destruct Htr as [[_ [e [=]]]|Htr].
      destruct (IH s1) as (evs & Hevs & Hpre & Hall).
      exists ([ECall d d; EOpen (path d)] ++ evs). split_and!.
      * by rewrite Hevs, Htr, <- !app_assoc.
      * by apply prefix_app.
      * intros Hok. by rewrite Hall.
    + destruct Htr as [[Htr _]|Htr].
      * exists [ECall d d]. split_and!; [done | | done].
        by eexists (_ :: _).
      * exists [ECall d d; EOpen (path d)]. split_and!; [done | | done].
        by eexists.
Qed.

(** X5: a run over given distances returns without an exception only if,
    for each of them, the constructor returned a code, the directory
    [pcm_matrices] exists, and the name of the file is not taken by a
    directory. *)
Theorem driver_returns_only_if `{Collaborator Env Code}
    (w : Env) (ds : list Z) (s s' : state) :
  driver w ds s = (Ok tt, s') ->
  forall d, d ∈ ds ->
    (exists c : Code, RotatedPlanarCode w d d = Ok c) /\
    "pcm_matrices" ∈ dirs s /\
    path d ∉ dirs s.
Proof.
  intros Hrun d Hd.
  destruct (proj1 (driver_Ok_conditions w ds s) (ex_intro _ s' Hrun) d Hd)
    as (c & Hc & _ & Hdir & Hp).
  split_and!; [by exists c | done | done].
Qed.

(** X6: a run that returns overwrites: what its files hold afterwards does
    not depend on what they held before.  Two runs over the same distances
    that both return, from states that agree on all other files, end with
    the same files. *)
Theorem driver_overwrites `{Collaborator Env Code}
    (w : Env) (ds : list Z) (s1 s2 s1' s2' : state) :
  driver w ds s1 = (Ok tt, s1') ->
  driver w ds s2 = (Ok tt, s2') ->
  (forall p, p ∉ path <$> ds -> files s1 !! p = files s2 !! p) ->
  files s1' = files s2'.
Proof.
  intros (_ & _ & Hother1 & Hfiles1)%driver_Ok_inv
         (_ & _ & Hother2 & Hfiles2)%driver_Ok_inv Hagree.
  apply map_eq. intros p.
  destruct (decide (p ∈ path <$> ds)) as [Hp|Hp].
  - apply list_elem_of_fmap in Hp as (d & -> & Hd).
    destruct (Hfiles1 d Hd) as (c1 & Hc1 & _ & ->).
    destruct (Hfiles2 d Hd) as (c2 & Hc2 & _ & ->).
    rewrite Hc1 in Hc2. by injection Hc2 as ->.
  - by rewrite Hother1, Hother2, Hagree.
Qed.

(** X7: a run that raises has completed the iterations of the distances
    before some distance and raises what the iteration of that distance
    raises, in the state that iteration leaves. *)
Theorem driver_raise_inv `{Collaborator Env Code}
    (w : Env) (ds : list Z) (e : exn) (s s' : state) :
  driver w ds s = (Raise e, s') ->
  exists (pre post : list Z) (d : Z) (s1 : state),
    ds = pre ++ d :: post /\
    driver w pre s = (Ok tt, s1) /\
    iteration w d s1 = (Raise e, s').
Proof.
  revert s. induction ds as [|d ds IH]; intros s; [done|].
  rewrite driver_cons.
  destruct (iteration w d s) as [[[]|e1] s1] eqn:Hit.
  - intros (pre & post & d' & s2 & -> & Hpre & Hd')%IH.
    exists (d :: pre), post, d', s2. split_and!; [done | | done].
    by rewrite driver_cons, Hit.
  - intros [= -> ->]. by exists [], ds, d, s.
Qed.

(** X8: the iterations do not depend on one another.  When a run over some
    distances returns, a run over the same distances in any other order
    returns too, with the same directories and the same files. *)
Theorem driver_order_irrelevant `{Collaborator Env Code}
    (w : Env) (ds1 ds2 : list Z) (s s1 : state) :
  ds1 ≡ₚ ds2 ->
  driver w ds1 s = (Ok tt, s1) ->
  exists s2 : state,
    driver w ds2 s = (Ok tt, s2) /\
    dirs s2 = dirs s1 /\
    files s2 = files s1.
Proof.
  intros Hperm Hrun1.
  assert (exists s2, driver w ds2 s = (Ok tt, s2)) as [s2 Hrun2].
  { apply driver_Ok_conditions. intros d Hd.
    apply (proj1 (driver_Ok_conditions w ds1 s) (ex_intro _ s1 Hrun1)).
    by rewrite Hperm. }
  exists s2. split; [done|].
  apply driver_Ok_inv in Hrun1 as (Hdirs1 & _ & Hother1 & Hfiles1).
  apply driver_Ok_inv in Hrun2 as (Hdirs2 & _ & Hother2 & Hfiles2).
  split; [congruence|]. apply map_eq. intros p.
  destruct (decide (p ∈ path <$> ds1)) as [Hp|Hp].
  - apply list_elem_of_fmap in Hp as (d & -> & Hd).
    destruct (Hfiles1 d Hd) as (c1 & Hc1 & _ & ->).
    destruct (Hfiles2 d) as (c2 & Hc2 & _ & ->); [by rewrite <- Hperm|].
    rewrite Hc1 in Hc2. by injection Hc2 as ->.
  - rewrite Hother1 by done. apply Hother2. by rewrite <- Hperm.
Qed.

Lemma driver_overwrites_witness :
  let stale := mk_state {["pcm_matrices"]}
                 {["pcm_matrices/distance_3_surface_code.csv" := "stale"]} [] in
  driver tt [3; 5] prepared = (Ok tt, (driver tt [3; 5] prepared).2) /\
  driver tt [3; 5] stale = (Ok tt, (driver tt [3; 5] stale).2) /\
  (forall p, p ∉ path <$> [3; 5] -> files prepared !! p = files stale !! p) /\
  files (driver tt [3; 5] prepared).2 = files (driver tt [3; 5] stale).2.
Proof.
  intros stale.
  assert (driver tt [3; 5] prepared = (Ok tt, (driver tt [3; 5] prepared).2))
    as H1 by (vm_compute; reflexivity).
  assert (driver tt [3; 5] stale = (Ok tt, (driver tt [3; 5] stale).2))
    as H2 by (vm_compute; reflexivity).
  assert (forall p, p ∉ path <$> [3; 5] -> files prepared !! p = files stale !! p)
    as H3.
  { intros p Hp. symmetry. apply lookup_singleton_ne.
    intros <-. apply Hp. apply elem_of_cons. by left. }
  split_and!; [exact H1 | exact H2 | exact H3 |].
  exact (driver_overwrites tt [3; 5] prepared stale _ _ H1 H2 H3).
Defined.

Lemma driver_raise_inv_witness :
  main tt blocked = (Raise IsADirectoryError, (main tt blocked).2) /\
  exists (pre post : list Z) (d : Z) (s1 : state),
    distances = pre ++ d :: post /\
    driver tt pre blocked = (Ok tt, s1) /\
    iteration tt d s1 = (Raise IsADirectoryError, (main tt blocked).2).
Proof.
  assert (main tt blocked = (Raise IsADirectoryError, (main tt blocked).2))
    as H1 by (vm_compute; reflexivity).
  split; [exact H1|].
  exact (driver_raise_inv tt distances IsADirectoryError blocked _ H1).
Defined.

Lemma driver_order_irrelevant_witness :
  [3; 5; 7] ≡ₚ [7; 3; 5] /\
  driver tt [3; 5; 7] prepared = (Ok tt, (driver tt [3; 5; 7] prepared).2) /\
  exists s2 : state,
    driver tt [7; 3; 5] prepared = (Ok tt, s2) /\
    dirs s2 = dirs (driver tt [3; 5; 7] prepared).2 /\
    files s2 = files (driver tt [3; 5; 7] prepared).2.
Proof.
  assert ([3; 5; 7] ≡ₚ [7; 3; 5]) as H1.
  { change [7; 3; 5] with ([7] ++ [3; 5]). change [3; 5; 7] with ([3; 5] ++ [7]).
    apply Permutation_app_comm. }
  assert (driver tt [3; 5; 7] prepared =
          (Ok tt, (driver tt [3; 5; 7] prepared).2)) as H2
    by (vm_compute; reflexivity).
  split; [exact H1|]. split; [exact H2|].
  exact (driver_order_irrelevant tt [3; 5; 7] [7; 3; 5] prepared _ H1 H2).
Defined.

Lemma driver_returns_only_if_witness :
  driver tt [3; 5] prepared = (Ok tt, (driver tt [3; 5] prepared).2) /\
  forall d, d ∈ [3; 5] ->
    (exists c : qecsim.code, RotatedPlanarCode tt d d = Ok c) /\
    "pcm_matrices" ∈ dirs prepared /\
    path d ∉ dirs prepared.
Proof.
  assert (driver tt [3; 5] prepared = (Ok tt, (driver tt [3; 5] prepared).2))
    as H1 by (vm_compute; reflexivity).
  split; [exact H1|].
  exact (driver_returns_only_if tt [3; 5] prepared _ H1).
Defined.
